(** * three-emitter: the instanced-attribute buffer allocator

    A shallow embedding of [src/Emitter.ts] and [src/EmitterInstance.ts].

    Conventions of the embedding:
    - a JavaScript [number] that is used as a count, an index or a clock
      reading is an integer ([Z]); the elapsed-time uniform, which holds
      fractions of a second, is a binary64 float as in the code, and the
      arithmetic on it is the IEEE arithmetic of [PrimFloat];
    - the contents of a [Float32Array] are a [list Z]; rounding to single
      precision is not part of the model;
    - a JavaScript object used as a dictionary is a [gmap string _], the
      [Set] of registered instances is a [gset] of object references;
    - a [RangeError] raised by the typed-array methods is an explicit
      outcome that carries the state reached when it was raised;
    - a loop that the source does not bound is run with fuel. *)

From Stdlib Require Import ZArith Lia.
From Stdlib Require Import Floats.PrimFloat Numbers.Cyclic.Int63.Uint63.
From stdpp Require Import gmap strings list fin_maps fin_sets.

Local Open Scope Z_scope.

(** ** Outcomes of calls that may raise *)

Inductive completion (A : Type) : Type :=
| Normal (a : A)
| RangeError (a : A).
Arguments Normal {A} a.
Arguments RangeError {A} a.

(** The state that a call ends in. *)
Definition outcome {A} (c : completion A) : A :=
  match c with Normal a => a | RangeError a => a end.

(** ** The typed-array methods the source calls *)

Module TypedArray.

(** Relative index of [subarray] and [fill]: a negative index counts
    from the end, and the result is clamped to [0, len]. *)
Definition relative (len i : Z) : Z :=
  if i <? 0 then Z.max (len + i) 0 else Z.min i len.

(** [subarray(begin, end)] on an array of length [len]: the first index
    and the length of the new view. *)
Definition subarray (len begin end_ : Z) : Z * Z :=
  let b := relative len begin in
  let f := relative len end_ in
  (b, Z.max (f - b) 0).

(** Overwrite [arr] from position [pos] with [src]; the caller has
    checked that [src] fits. *)
Definition write_at (arr : list Z) (pos : nat) (src : list Z) : list Z :=
  take pos arr ++ src ++ drop (pos + length src) arr.

(** [target.set(src, offset)]: raises when the source does not fit. *)
Definition set (target src : list Z) (offset : Z) : completion (list Z) :=
  if bool_decide (offset < 0 ∨ Z.of_nat (length target) < Z.of_nat (length src) + offset)
  then RangeError target
  else Normal (write_at target (Z.to_nat offset) src).

(** [target.fill(v, start, end)]. *)
Definition fill (target : list Z) (v : Z) (start end_ : Z) : list Z :=
  let len := Z.of_nat (length target) in
  let k := relative len start in
  let f := relative len end_ in
  if bool_decide (k < f)
  then take (Z.to_nat k) target ++ replicate (Z.to_nat (f - k)) v
         ++ drop (Z.to_nat f) target
  else target.

End TypedArray.

(** ** The collaborator's buffer attribute *)

Module THREE.

(** [THREE.BufferAttribute]: the fields the emitter reads and writes.
    [count] is the number of items the library derives from the array
    and the item size; [isInstancedBufferAttribute] tells the declared
    kind of the attribute. *)
Record BufferAttribute : Type := {
  array : list Z;
  itemSize : Z;
  count : Z;
  needsUpdate : bool;
  isInstancedBufferAttribute : bool;
}.

Definition set_array (a : BufferAttribute) (arr : list Z) : BufferAttribute :=
  {| array := arr; itemSize := itemSize a; count := count a;
     needsUpdate := needsUpdate a;
     isInstancedBufferAttribute := isInstancedBufferAttribute a |}.

Definition set_needsUpdate (a : BufferAttribute) (b : bool) : BufferAttribute :=
  {| array := array a; itemSize := itemSize a; count := count a;
     needsUpdate := b;
     isInstancedBufferAttribute := isInstancedBufferAttribute a |}.

End THREE.

(** ** Views, instances and the emitter *)

(** An object reference (identity of an [EmitterInstance]). *)
Definition ref := nat.

(** A typed array that an instance holds for an attribute name. It aliases
    the attribute's array: [v_begin] and [v_length] delimit the window,
    and [v_proxy] tells whether it is wrapped in the [Proxy] that flags
    the attribute on mutation. *)
Record View : Type := {
  v_begin : nat;
  v_length : nat;
  v_proxy : bool;
}.

Record EmitterInstance : Type := {
  particleAmount : Z;
  attributes : gmap string View;
  attributeIndices : gmap string Z;
}.

Record Emitter : Type := {
  autoUpdate : bool;
  maxParticles : Z;
  knownInstances : gset ref;
  timestamp : Z;
  (* geometry.instanceCount *)
  instanceCount : Z;
  (* geometry.attributes *)
  geometry_attributes : gmap string THREE.BufferAttribute;
  (* material.uniforms.time.value *)
  uniforms_time : float;
  (* callbacks handed to requestAnimationFrame and not yet run *)
  pendingFrames : nat;
}.

Definition set_instanceCount (e : Emitter) (n : Z) : Emitter :=
  {| autoUpdate := autoUpdate e; maxParticles := maxParticles e;
     knownInstances := knownInstances e; timestamp := timestamp e;
     instanceCount := n; geometry_attributes := geometry_attributes e;
     uniforms_time := uniforms_time e; pendingFrames := pendingFrames e |}.

Definition set_knownInstances (e : Emitter) (k : gset ref) : Emitter :=
  {| autoUpdate := autoUpdate e; maxParticles := maxParticles e;
     knownInstances := k; timestamp := timestamp e;
     instanceCount := instanceCount e;
     geometry_attributes := geometry_attributes e;
     uniforms_time := uniforms_time e; pendingFrames := pendingFrames e |}.

Definition set_geometry_attributes (e : Emitter)
    (m : gmap string THREE.BufferAttribute) : Emitter :=
  {| autoUpdate := autoUpdate e; maxParticles := maxParticles e;
     knownInstances := knownInstances e; timestamp := timestamp e;
     instanceCount := instanceCount e; geometry_attributes := m;
     uniforms_time := uniforms_time e; pendingFrames := pendingFrames e |}.

Definition set_clock (e : Emitter) (t : float) (stamp : Z) (frames : nat) : Emitter :=
  {| autoUpdate := autoUpdate e; maxParticles := maxParticles e;
     knownInstances := knownInstances e; timestamp := stamp;
     instanceCount := instanceCount e;
     geometry_attributes := geometry_attributes e;
     uniforms_time := t; pendingFrames := frames |}.

(** [new Emitter({ maxParticles, attributes, autoUpdate })]: the
    constructor sets the count and the time uniform to zero, stores the
    attributes and, with [autoUpdate], requests the first frame. *)
Definition Emitter_new (max : Z) (attrs : gmap string THREE.BufferAttribute)
    (auto : bool) : Emitter :=
  {| autoUpdate := auto; maxParticles := max; knownInstances := ∅;
     timestamp := 0; instanceCount := 0; geometry_attributes := attrs;
     uniforms_time := 0%float; pendingFrames := if auto then 1%nat else 0%nat |}.

(** *** Registration *)

(** [Emitter.instanceAdded] *)
Definition instanceAdded (e : Emitter) (r : ref) (inst : EmitterInstance) : Emitter :=
  if decide (r ∈ knownInstances e) then e
  else
    set_instanceCount (set_knownInstances e ({[r]} ∪ knownInstances e))
      (Z.min (maxParticles e) (instanceCount e + particleAmount inst)).

(** One iteration of the loop of [Emitter.removeAndShiftAttributes]. *)
Definition removeAndShift_step (inst : EmitterInstance) (name : string)
    (attr : View) (e : Emitter) : completion Emitter :=
  match geometry_attributes e !! name with
  | None => Normal e
  | Some g =>
      let start := default 0 (attributeIndices inst !! name) in
      let end_ := start + Z.of_nat (v_length attr) in
      let arr := THREE.array g in
      let len := Z.of_nat (length arr) in
      let tail := drop (Z.to_nat (fst (TypedArray.subarray len end_ len))) arr in
      match TypedArray.set arr tail start with
      | RangeError _ => RangeError e
      | Normal shifted =>
          let cleared := TypedArray.fill shifted 0 (start - end_) len in
          Normal (set_geometry_attributes e
                    (<[name := THREE.set_needsUpdate (THREE.set_array g cleared) true]>
                       (geometry_attributes e)))
      end
  end.

(** [Emitter.removeAndShiftAttributes]: the loop over the entries of
    [instance.attributes]. An iteration reads and writes only the entry
    of its own name, so the order of the entries does not change the
    result of a run that completes. *)
Definition removeAndShiftAttributes (e : Emitter) (inst : EmitterInstance)
    : completion Emitter :=
  map_fold
    (λ name attr acc,
       match acc with
       | Normal e' => removeAndShift_step inst name attr e'
       | RangeError e' => RangeError e'
       end)
    (Normal e) (attributes inst).

(** [Emitter.instanceRemoved] *)
Definition instanceRemoved (e : Emitter) (r : ref) (inst : EmitterInstance)
    : completion Emitter :=
  if decide (r ∈ knownInstances e) then
    let e1 := set_instanceCount e (Z.max 0 (instanceCount e - particleAmount inst)) in
    match removeAndShiftAttributes e1 inst with
    | Normal e2 => Normal (set_knownInstances e2 (knownInstances e2 ∖ {[r]}))
    | RangeError e2 => RangeError e2
    end
  else Normal e.

(** The accessor pair [Emitter.particleAmount]. *)
Definition Emitter_get_particleAmount (e : Emitter) : Z := instanceCount e.

Definition Emitter_set_particleAmount (e : Emitter) (amount : Z) : Emitter :=
  set_instanceCount e amount.

(** *** Views of an instance *)

(** The view of the whole array of an attribute, as stored for an
    attribute that is shared by all instances (no [Proxy]). *)
Definition whole_view (attr : THREE.BufferAttribute) : View :=
  {| v_begin := 0; v_length := length (THREE.array attr); v_proxy := false |}.

(** The proxied view [attr.array.subarray(start, end)]. *)
Definition sub_view (attr : THREE.BufferAttribute) (start end_ : Z) : View :=
  let '(b, n) := TypedArray.subarray (Z.of_nat (length (THREE.array attr))) start end_ in
  {| v_begin := Z.to_nat b; v_length := Z.to_nat n; v_proxy := true |}.

(** One iteration of the loop of [calculateAttributeSubarrays]. *)
Definition calculate_step (e : Emitter) (name : string)
    (attr : THREE.BufferAttribute) (inst : EmitterInstance) : EmitterInstance :=
  if decide (maxParticles e ≤ THREE.count attr) then
    let start :=
      default (Z.max 0 (instanceCount e * THREE.itemSize attr))
              (attributeIndices inst !! name) in
    let end_ :=
      Z.min (Z.of_nat (length (THREE.array attr)))
            (start + particleAmount inst * THREE.itemSize attr) in
    {| particleAmount := particleAmount inst;
       attributes := <[name := sub_view attr start end_]> (attributes inst);
       attributeIndices := <[name := start]> (attributeIndices inst) |}
  else
    match attributes inst !! name with
    | None =>
        {| particleAmount := particleAmount inst;
           attributes := <[name := whole_view attr]> (attributes inst);
           attributeIndices := attributeIndices inst |}
    | Some _ => inst
    end.

(** [EmitterInstance.calculateAttributeSubarrays]: the loop over the
    entries of the emitter's attributes; each iteration touches the
    entries of its own name only. *)
Definition calculateAttributeSubarrays (e : Emitter) (inst : EmitterInstance)
    : EmitterInstance :=
  map_fold (calculate_step e) inst (geometry_attributes e).

(** ** The object store *)

(** One emitter and the instance objects created for it. *)
Record World : Type := {
  emitter : Emitter;
  heap : gmap ref EmitterInstance;
}.

(** The fields of an instance before its constructor computes the views. *)
Definition plain_instance (amount : Z) : EmitterInstance :=
  {| particleAmount := amount; attributes := ∅; attributeIndices := ∅ |}.

(** [new EmitterInstance(emitter, particleAmount)] *)
Definition EmitterInstance_new (w : World) (amount : Z) : ref * World :=
  let r := fresh (dom (heap w)) in
  let inst := calculateAttributeSubarrays (emitter w) (plain_instance amount) in
  (r, {| emitter := instanceAdded (emitter w) r inst;
         heap := <[r := inst]> (heap w) |}).

(** [EmitterInstance.dispose]; a reference that is not in the store
    denotes no object, and the call is then left out. *)
Definition EmitterInstance_dispose (w : World) (r : ref) : completion World :=
  match heap w !! r with
  | None => Normal w
  | Some inst =>
      match instanceRemoved (emitter w) r inst with
      | Normal e => Normal {| emitter := e; heap := heap w |}
      | RangeError e => RangeError {| emitter := e; heap := heap w |}
      end
  end.

(** What an instance reads through its view of [name]. *)
Definition read_view (e : Emitter) (name : string) (v : View) : list Z :=
  match geometry_attributes e !! name with
  | None => []
  | Some g => take (v_length v) (drop (v_begin v) (THREE.array g))
  end.

(** ** Filling *)

(** The values [fillAttribute] accepts; [R] is what a generator returns. *)
Inductive FillValue (R : Type) : Type :=
| VNumber (v : Z)
| VArray (vs : list Z)
| VFunction (f : Z → R).
Arguments VNumber {R} v.
Arguments VArray {R} vs.
Arguments VFunction {R} f.

(** What the generator of [Emitter.fillAttribute] returns. *)
Inductive Generated : Type :=
| GNumber (v : Z)
| GArray (vs : list Z).

(** [Array.isArray(val) ? val : [val]] *)
Definition as_array (val : Generated) : list Z :=
  match val with GNumber v => [v] | GArray vs => vs end.

(** Reading the property [set], [fill] or [copyWithin] of a view: the
    [Proxy] of a per-instance view flags the attribute. *)
Definition touch (v : View) (g : THREE.BufferAttribute) : THREE.BufferAttribute :=
  if v_proxy v then THREE.set_needsUpdate g true else g.

(** [data.set(src, i)] through the view [v] of the attribute [g]. *)
Definition data_set (v : View) (g : THREE.BufferAttribute) (src : list Z) (i : Z)
    : completion THREE.BufferAttribute :=
  let g1 := touch v g in
  if bool_decide (i < 0 ∨ Z.of_nat (v_length v) < Z.of_nat (length src) + i)
  then RangeError g1
  else Normal (THREE.set_array g1
                 (TypedArray.write_at (THREE.array g1) (v_begin v + Z.to_nat i) src)).

(** [data.fill(value)] through the view [v] of the attribute [g]. *)
Definition data_fill (v : View) (g : THREE.BufferAttribute) (value : Z)
    : THREE.BufferAttribute :=
  let g1 := touch v g in
  THREE.set_array g1
    (TypedArray.write_at (THREE.array g1) (v_begin v) (replicate (v_length v) value)).

(** [for (let i = 0; i < data.length; i += value.length) data.set(value, i)];
    [None] when the fuel runs out. *)
Fixpoint fill_array_loop (fuel : nat) (v : View) (value : list Z) (i : Z)
    (g : THREE.BufferAttribute) : option (completion THREE.BufferAttribute) :=
  if bool_decide (i < Z.of_nat (v_length v)) then
    match fuel with
    | O => None
    | S fuel' =>
        match data_set v g value i with
        | Normal g' => fill_array_loop fuel' v value (i + Z.of_nat (length value)) g'
        | RangeError g' => Some (RangeError g')
        end
    end
  else Some (Normal g).

(** The generator loop of [Emitter.fillAttribute]:
    [while (destIndex < data.length) { ... }]. *)
Fixpoint fill_generator_loop (fuel : nat) (v : View) (value : Z → Generated)
    (sourceIndex destIndex : Z) (g : THREE.BufferAttribute)
    : option (completion THREE.BufferAttribute) :=
  if bool_decide (destIndex < Z.of_nat (v_length v)) then
    match fuel with
    | O => None
    | S fuel' =>
        let arr := as_array (value sourceIndex) in
        match data_set v g arr destIndex with
        | Normal g' =>
            fill_generator_loop fuel' v value (sourceIndex + 1)
              (destIndex + Z.of_nat (length arr)) g'
        | RangeError g' => Some (RangeError g')
        end
    end
  else Some (Normal g).

(** The generator loop of [EmitterInstance.fillAttribute]:
    [for (let i = 0; i < data.length; i += 1) data.set([value(i)], i)]. *)
Fixpoint fill_each_loop (fuel : nat) (v : View) (value : Z → Z) (i : Z)
    (g : THREE.BufferAttribute) : option (completion THREE.BufferAttribute) :=
  if bool_decide (i < Z.of_nat (v_length v)) then
    match fuel with
    | O => None
    | S fuel' =>
        match data_set v g [value i] i with
        | Normal g' => fill_each_loop fuel' v value (i + 1) g'
        | RangeError g' => Some (RangeError g')
        end
    end
  else Some (Normal g).

Definition store_attribute (e : Emitter) (name : string)
    (g : THREE.BufferAttribute) : Emitter :=
  set_geometry_attributes e (<[name := g]> (geometry_attributes e)).

Definition store_outcome (e : Emitter) (name : string)
    (finish : THREE.BufferAttribute → THREE.BufferAttribute)
    (c : completion THREE.BufferAttribute) : completion Emitter :=
  match c with
  | Normal g => Normal (store_attribute e name (finish g))
  | RangeError g => RangeError (store_attribute e name g)
  end.

(** [Emitter.fillAttribute]: the data is the attribute's own array, and the
    last statement flags the attribute. *)
Definition Emitter_fillAttribute (fuel : nat) (e : Emitter) (attribute : string)
    (value : FillValue Generated) : option (completion Emitter) :=
  match geometry_attributes e !! attribute with
  | None => Some (Normal e)
  | Some g =>
      let data := whole_view g in
      let flag := λ g', THREE.set_needsUpdate g' true in
      match value with
      | VFunction f =>
          store_outcome e attribute flag <$> fill_generator_loop fuel data f 0 0 g
      | VArray vs =>
          store_outcome e attribute flag <$> fill_array_loop fuel data vs 0 g
      | VNumber x =>
          Some (Normal (store_attribute e attribute (flag (data_fill data g x))))
      end
  end.

(** [EmitterInstance.fillAttribute]: the data is the instance's view. The
    view aliases the array of the emitter's attribute of that name. *)
Definition EmitterInstance_fillAttribute (fuel : nat) (e : Emitter)
    (inst : EmitterInstance) (attribute : string) (value : FillValue Z)
    : option (completion Emitter) :=
  match attributes inst !! attribute with
  | None => Some (Normal e)
  | Some data =>
      match geometry_attributes e !! attribute with
      | None => Some (Normal e)
      | Some g =>
          match value with
          | VFunction f =>
              store_outcome e attribute id <$> fill_each_loop fuel data f 0 g
          | VArray vs =>
              store_outcome e attribute id <$> fill_array_loop fuel data vs 0 g
          | VNumber x =>
              Some (Normal (store_attribute e attribute (data_fill data g x)))
          end
      end
  end.

(** ** The elapsed-time uniform *)

(** The JavaScript number that holds the integer [z]. Clock readings and
    their differences are integers within the safe range, where the
    conversion and the subtraction of two readings are exact. *)
Definition number (z : Z) : float :=
  if z <? 0 then PrimFloat.opp (PrimFloat.of_uint63 (Uint63.of_Z (- z)))
  else PrimFloat.of_uint63 (Uint63.of_Z z).

(** Truthiness of a JavaScript number: 0, -0 and NaN count as false. *)
Definition truthy (x : float) : bool :=
  negb (PrimFloat.is_zero x || PrimFloat.is_nan x).

(** [Emitter.update]; [now] is the value of [Date.now()]. The stored
    timestamp is an integer, which is truthy exactly when it is not 0. *)
Definition update (e : Emitter) (now : Z) : Emitter :=
  (* this.timestamp && (now - this.timestamp) / 1000 *)
  let conj :=
    if bool_decide (timestamp e = 0) then number (timestamp e)
    else PrimFloat.div (number (now - timestamp e)) 1000%float in
  (* ... || 0 *)
  let delta := if truthy conj then conj else 0%float in
  set_clock e (PrimFloat.add (uniforms_time e) delta) now
    (if autoUpdate e then S (pendingFrames e) else pendingFrames e).

(** Successive calls of [update], one per clock reading. *)
Definition ticks (e : Emitter) (clock : list Z) : Emitter :=
  fold_left update clock e.

(** ** Sequences of registrations *)

Section Calls.

(** The instance object behind each reference. *)
Variable obj : ref → EmitterInstance.

(** The sum of [particleAmount] over a set of instances. *)
Definition registered_total (K : gset ref) : Z :=
  set_fold (λ r acc, particleAmount (obj r) + acc) 0 K.

Inductive call : Type :=
| Register (r : ref)
| Unregister (r : ref).

(** One call on the emitter. *)
Definition perform (e : Emitter) (c : call) : completion Emitter :=
  match c with
  | Register r => Normal (instanceAdded e r (obj r))
  | Unregister r => instanceRemoved e r (obj r)
  end.

(** The calls in order; a call that raises ends the run. *)
Fixpoint run (e : Emitter) (cs : list call) : completion Emitter :=
  match cs with
  | [] => Normal e
  | c :: cs' =>
      match perform e c with
      | Normal e' => run e' cs'
      | RangeError e' => RangeError e'
      end
  end.

(** The members after a call. *)
Definition members_after (K : gset ref) (c : call) : gset ref :=
  match c with
  | Register r => {[r]} ∪ K
  | Unregister r => K ∖ {[r]}
  end.

(** The condition on the removals of [cs], started with the members [K]:
    a removal of a member happens while the sum over the members is within
    [max], or takes out an instance of amount 0, or takes out the instance
    that carries the whole sum. Registrations are not restricted. *)
Fixpoint removals_within (max : Z) (K : gset ref) (cs : list call) : Prop :=
  match cs with
  | [] => True
  | c :: cs' =>
      match c with
      | Register _ => True
      | Unregister r =>
          r ∈ K →
          registered_total K ≤ max
          ∨ particleAmount (obj r) = 0
          ∨ registered_total K = particleAmount (obj r)
      end
      ∧ removals_within max (members_after K c) cs'
  end.

End Calls.

(** The recorded start of every view of [inst] lies within the array of
    the attribute it belongs to. *)
Definition starts_in_bounds (e : Emitter) (inst : EmitterInstance) : Prop :=
  ∀ name v g,
    attributes inst !! name = Some v →
    geometry_attributes e !! name = Some g →
    0 ≤ default 0 (attributeIndices inst !! name) ≤ Z.of_nat (length (THREE.array g)).

(** [e'] has the scalars of [e] and arrays of the same lengths. *)
Definition same_shape (e e' : Emitter) : Prop :=
  maxParticles e' = maxParticles e ∧
  knownInstances e' = knownInstances e ∧
  instanceCount e' = instanceCount e ∧
  ∀ name,
    (λ g, length (THREE.array g)) <$> (geometry_attributes e' !! name)
    = (λ g, length (THREE.array g)) <$> (geometry_attributes e !! name).

(** [instance.fillAttribute(attribute, value)] on the instance behind [r]. *)
Definition World_fillAttribute (fuel : nat) (w : World) (r : ref)
    (attribute : string) (value : FillValue Z) : option (completion World) :=
  match heap w !! r with
  | None => Some (Normal w)
  | Some inst =>
      match EmitterInstance_fillAttribute fuel (emitter w) inst attribute value with
      | None => None
      | Some (Normal e) => Some (Normal {| emitter := e; heap := heap w |})
      | Some (RangeError e) => Some (RangeError {| emitter := e; heap := heap w |})
      end
  end.

(** ** Descriptions used in the statements *)

(** The start that [calculateAttributeSubarrays] records for a per-instance
    attribute: the one already recorded, else the end of the active
    items. *)
Definition recorded_start (e : Emitter) (inst : EmitterInstance) (name : string)
    (attr : THREE.BufferAttribute) : Z :=
  default (Z.max 0 (instanceCount e * THREE.itemSize attr))
          (attributeIndices inst !! name).

Definition recorded_end (e : Emitter) (inst : EmitterInstance) (name : string)
    (attr : THREE.BufferAttribute) : Z :=
  Z.min (Z.of_nat (length (THREE.array attr)))
        (recorded_start e inst name attr + particleAmount inst * THREE.itemSize attr).

(** [q] copies of [value], one after the other. *)
Definition tile (q : nat) (value : list Z) : list Z := concat (replicate q value).

(** The attribute after a vector was tiled [q] times through the view
    [v], starting at index [i] of the view. *)
Definition tiled_from (v : View) (g : THREE.BufferAttribute) (value : list Z)
    (i : Z) (q : nat) : THREE.BufferAttribute :=
  THREE.set_needsUpdate
    (THREE.set_array g
       (TypedArray.write_at (THREE.array g) (v_begin v + Z.to_nat i) (tile q value)))
    (THREE.needsUpdate g
     || (v_proxy v && bool_decide (i < Z.of_nat (v_length v)))).

(** ** Configuration after construction *)

(** [Emitter.setAttributes]: [geometry.setAttribute(name, attr)] for every
    entry; an attribute of the same name is replaced. *)
Definition setAttributes (e : Emitter)
    (attrs : gmap string THREE.BufferAttribute) : Emitter :=
  map_fold (λ name attr e', store_attribute e' name attr) e attrs.

(** [Emitter.setAutoUpdate] *)
Definition setAutoUpdate (e : Emitter) (auto : bool) : Emitter :=
  {| autoUpdate := auto; maxParticles := maxParticles e;
     knownInstances := knownInstances e; timestamp := timestamp e;
     instanceCount := instanceCount e;
     geometry_attributes := geometry_attributes e;
     uniforms_time := uniforms_time e;
     pendingFrames := if auto then S (pendingFrames e) else pendingFrames e |}.

(** ** Descriptions used in the further statements *)

(** The recorded start of the view that [inst] holds for [name]. *)
Definition start_of (inst : EmitterInstance) (name : string) : Z :=
  default 0 (attributeIndices inst !! name).

(** The range [start, start + length) that a removal takes out for each
    view of [inst] lies within the buffer. *)
Definition ranges_in_bounds (e : Emitter) (inst : EmitterInstance) : Prop :=
  ∀ name v g,
    attributes inst !! name = Some v →
    geometry_attributes e !! name = Some g →
    0 ≤ start_of inst name ∧
    start_of inst name + Z.of_nat (v_length v) ≤ Z.of_nat (length (THREE.array g)).

(** A buffer after the range of [n] elements from [start] was taken out:
    what followed the range is moved to [start] and the last [n] elements
    are zero; with [n = 0] the whole buffer is zero. *)
Definition compacted (arr : list Z) (start n : nat) : list Z :=
  match n with
  | O => replicate (length arr) 0
  | S _ => take start arr ++ drop (start + n) arr ++ replicate n 0
  end.

(** The attribute [g] after the view [v] of [inst] was taken out. *)
Definition compacted_attribute (inst : EmitterInstance) (name : string)
    (v : View) (g : THREE.BufferAttribute) : THREE.BufferAttribute :=
  THREE.set_needsUpdate
    (THREE.set_array g
       (compacted (THREE.array g) (Z.to_nat (start_of inst name)) (v_length v)))
    true.

(** The attributes of an emitter after the views [views] of [inst] were
    taken out. *)
Definition compacted_lookup (inst : EmitterInstance) (views : gmap string View)
    (attrs : gmap string THREE.BufferAttribute) (name : string)
    : option THREE.BufferAttribute :=
  match attrs !! name, views !! name with
  | Some g, Some v => Some (compacted_attribute inst name v g)
  | o, _ => o
  end.

(** A view moved [n] elements towards the start of the buffer. *)
Definition moved_left (v : View) (n : nat) : View :=
  {| v_begin := v_begin v - n; v_length := v_length v; v_proxy := v_proxy v |}.

(** The integers [i, i + 1, ..., i + n - 1]. *)
Fixpoint indices_from (i : Z) (n : nat) : list Z :=
  match n with
  | O => []
  | S n' => i :: indices_from (i + 1) n'
  end.

(** [g'] is [g] up to the flag and the elements inside the view [v]. *)
Definition same_outside (v : View) (g g' : THREE.BufferAttribute) : Prop :=
  length (THREE.array g') = length (THREE.array g) ∧
  THREE.itemSize g' = THREE.itemSize g ∧
  THREE.count g' = THREE.count g ∧
  THREE.isInstancedBufferAttribute g' = THREE.isInstancedBufferAttribute g ∧
  ∀ j : nat, (j < v_begin v ∨ v_begin v + v_length v ≤ j)%nat →
             THREE.array g' !! j = THREE.array g !! j.

(** The attribute after [chunk] was written through the view [v] from
    index [i] of the view on; [wrote] tells whether a write took place. *)
Definition written_from (v : View) (g : THREE.BufferAttribute) (i : Z)
    (chunk : list Z) (wrote : bool) : THREE.BufferAttribute :=
  THREE.set_needsUpdate
    (THREE.set_array g
       (TypedArray.write_at (THREE.array g) (v_begin v + Z.to_nat i) chunk))
    (THREE.needsUpdate g || (v_proxy v && wrote)).

(** What a generator returns for the indices [s, s + 1, ..., s + q - 1],
    one result after the other. *)
Definition generated (value : Z → Generated) (s : Z) (q : nat) : list Z :=
  concat (map (λ i, as_array (value i)) (indices_from s q)).

(** ** A small scene *)

(** [new THREE.InstancedBufferAttribute(new Float32Array(10 * 3), 3)] *)
Definition pos_attribute : THREE.BufferAttribute :=
  {| THREE.array := replicate 30 0; THREE.itemSize := 3; THREE.count := 10;
     THREE.needsUpdate := false; THREE.isInstancedBufferAttribute := true |}.

(** [new THREE.BufferAttribute(new Float32Array(4), 4)] *)
Definition tint_attribute : THREE.BufferAttribute :=
  {| THREE.array := replicate 4 0; THREE.itemSize := 4; THREE.count := 1;
     THREE.needsUpdate := false; THREE.isInstancedBufferAttribute := false |}.

(** [new Emitter({ maxParticles: 10, attributes: { pos, tint }, autoUpdate: false })] *)
Definition scene_emitter : Emitter :=
  Emitter_new 10 {[ "pos" := pos_attribute; "tint" := tint_attribute ]} false.

Definition scene : World := {| emitter := scene_emitter; heap := ∅ |}.

(** The instance of 4 items created first in the scene, and the emitter
    once it is registered. *)
Definition scene_instance : EmitterInstance :=
  calculateAttributeSubarrays scene_emitter (plain_instance 4).

Definition scene_registered : Emitter :=
  instanceAdded scene_emitter 0%nat scene_instance.

(** The assignment [emitter.maxParticles = max] to the public field. *)
Definition set_maxParticles (e : Emitter) (max : Z) : Emitter :=
  {| autoUpdate := autoUpdate e; maxParticles := max;
     knownInstances := knownInstances e; timestamp := timestamp e;
     instanceCount := instanceCount e;
     geometry_attributes := geometry_attributes e;
     uniforms_time := uniforms_time e; pendingFrames := pendingFrames e |}.

(** [new THREE.BufferAttribute(new Float32Array(6), 3)] *)
Definition small_attribute : THREE.BufferAttribute :=
  {| THREE.array := replicate 6 0; THREE.itemSize := 3; THREE.count := 2;
     THREE.needsUpdate := false; THREE.isInstancedBufferAttribute := false |}.

(** * Properties *)

(** ** Registration and the active count *)

Lemma instanceAdded_member e r inst :
  r ∈ knownInstances (instanceAdded e r inst).
Proof.
  unfold instanceAdded. destruct (decide (r ∈ knownInstances e)); [done|].
  simpl. apply elem_of_union_l. by apply elem_of_singleton.
Qed.

(** C7. Registering an instance that is already a member changes nothing:
    the emitter (its membership set and its active count included) is the
    same afterwards, so a second registration of the same handle has no
    effect. *)
Theorem instanceAdded_idempotent (e : Emitter) (r : ref) (inst inst' : EmitterInstance) :
  (r ∈ knownInstances e → instanceAdded e r inst = e) ∧
  instanceAdded (instanceAdded e r inst) r inst' = instanceAdded e r inst.
Proof.
  assert (Hin : ∀ e0 i, r ∈ knownInstances e0 → instanceAdded e0 r i = e0).
  { intros e0 i Hr. unfold instanceAdded. by destruct (decide (r ∈ knownInstances e0)). }
  split; [apply Hin|]. apply Hin, instanceAdded_member.
Qed.

(** C8. Unregistering an instance that is not a member leaves the emitter
    as it is (count, buffers, flags and membership), and so does a second
    unregistration after one that completed; the instance objects are not
    touched either. *)
Theorem instanceRemoved_non_member (e : Emitter) (r : ref) (inst : EmitterInstance) :
  (r ∉ knownInstances e → instanceRemoved e r inst = Normal e) ∧
  (∀ e', instanceRemoved e r inst = Normal e' →
         instanceRemoved e' r inst = Normal e') ∧
  (∀ w, emitter w = e → heap w !! r = Some inst → r ∉ knownInstances e →
        EmitterInstance_dispose w r = Normal w).
Proof.
  assert (Hout : ∀ e0, r ∉ knownInstances e0 → instanceRemoved e0 r inst = Normal e0).
  { intros e0 Hr. unfold instanceRemoved. by destruct (decide (r ∈ knownInstances e0)). }
  split; [apply Hout|]. split.
  - intros e' Hrm. apply Hout. revert Hrm. unfold instanceRemoved.
    destruct (decide (r ∈ knownInstances e)) as [Hr|Hr].
    + destruct (removeAndShiftAttributes _ inst) as [e2|e2]; [|done].
      intros Heq. injection Heq as Heq. subst e'. simpl.
      rewrite elem_of_difference, elem_of_singleton. tauto.
    + intros Heq. injection Heq as Heq. by subst e'.
  - intros [we wh] Hwe Hh Hr. simpl in *. subst we.
    unfold EmitterInstance_dispose. simpl. rewrite Hh, (Hout _ Hr). done.
Qed.

(** The accessor [particleAmount] stores what it is given. *)
Lemma particleAmount_set_get e n :
  Emitter_get_particleAmount (Emitter_set_particleAmount e n) = n.
Proof. reflexivity. Qed.

(** C6, as the code has it. The setter stores its argument as it is, the
    getter returns the stored count, the bound is not changed, and the
    stored count is within [0, maxParticles] exactly when the argument
    is. *)
Theorem particleAmount_setter_stores (e : Emitter) (n : Z) :
  let e' := Emitter_set_particleAmount e n in
  instanceCount e' = n ∧
  Emitter_get_particleAmount e' = instanceCount e' ∧
  maxParticles e' = maxParticles e ∧
  (0 ≤ instanceCount e' ≤ maxParticles e' ↔ 0 ≤ n ≤ maxParticles e).
Proof. simpl. unfold Emitter_get_particleAmount. simpl. tauto. Qed.

(** C6, as stated, fails: on an emitter with [maxParticles = 10] the
    setter stores 20, and it stores -1. *)
Lemma particleAmount_setter_not_clamped :
  let e := Emitter_new 10 ∅ false in
  ¬ (0 ≤ instanceCount (Emitter_set_particleAmount e 20) ≤ maxParticles e) ∧
  ¬ (0 ≤ instanceCount (Emitter_set_particleAmount e (-1)) ≤ maxParticles e).
Proof. simpl. lia. Qed.

(** ** The elapsed-time uniform *)

Lemma update_timestamp e now : timestamp (update e now) = now.
Proof. reflexivity. Qed.

Lemma update_first e now :
  timestamp e = 0 →
  uniforms_time (update e now) = PrimFloat.add (uniforms_time e) 0%float.
Proof. intros Hz. unfold update. simpl. rewrite Hz. reflexivity. Qed.

Lemma update_next e now :
  timestamp e ≠ 0 →
  let q := PrimFloat.div (number (now - timestamp e)) 1000%float in
  uniforms_time (update e now)
  = PrimFloat.add (uniforms_time e)
      (if PrimFloat.is_zero q || PrimFloat.is_nan q then 0%float else q).
Proof.
  intros Hz q. unfold update. simpl. rewrite bool_decide_false by done.
  fold q. unfold truthy. by destruct (PrimFloat.is_zero q || PrimFloat.is_nan q).
Qed.

Lemma ticks_snoc e clock now : ticks e (clock ++ [now]) = update (ticks e clock) now.
Proof. unfold ticks. by rewrite fold_left_app. Qed.

Lemma last_default_irrelevant (l : list Z) (d d' : Z) :
  l ≠ [] → List.last l d = List.last l d'.
Proof.
  induction l as [|x l IH]; [done|]. intros _.
  destruct l as [|y l]; [done|]. by apply IH.
Qed.

Lemma ticks_timestamp e clock : timestamp (ticks e clock) = List.last clock (timestamp e).
Proof.
  revert e. induction clock as [|now clock IH]; intros e; [done|].
  change (ticks e (now :: clock)) with (ticks (update e now) clock).
  rewrite IH, update_timestamp. destruct clock as [|c clock]; [done|].
  change (List.last (now :: c :: clock) (timestamp e))
    with (List.last (c :: clock) (timestamp e)).
  by apply last_default_irrelevant.
Qed.

(** C9, as the code has it. After any sequence of ticks of an emitter
    that started without a timestamp, the stored timestamp is the clock
    reading of the last tick, and 0 stands for "none". The next tick
    stores [now]. When it finds 0 stored (a first tick, or a tick after a
    clock reading of 0) it adds zero to the time uniform. When it finds
    [p <> 0] stored it adds the double [(now - p) / 1000], taking 0 for a
    quotient that is zero or not a number; the difference of the two
    readings is converted to a double as an integer, and the sum is the
    sum of doubles. *)
Theorem update_elapsed_time (e0 : Emitter) (clock : list Z) (now : Z) :
  timestamp e0 = 0 →
  let e := ticks e0 clock in
  timestamp e = List.last clock 0 ∧
  timestamp (update e now) = now ∧
  (timestamp e = 0 →
     uniforms_time (update e now) = PrimFloat.add (uniforms_time e) 0%float) ∧
  (∀ p, timestamp e = p → p ≠ 0 →
     let q := PrimFloat.div (number (now - p)) 1000%float in
     uniforms_time (update e now)
     = PrimFloat.add (uniforms_time e)
         (if PrimFloat.is_zero q || PrimFloat.is_nan q then 0%float else q)) ∧
  (∀ d, (0 ≤ d → number d = PrimFloat.of_uint63 (Uint63.of_Z d)) ∧
        (d < 0 → number d = PrimFloat.opp (PrimFloat.of_uint63 (Uint63.of_Z (- d))))).
Proof.
  intros H0 e. split; [|split; [|split; [|split]]].
  - subst e. by rewrite ticks_timestamp, H0.
  - apply update_timestamp.
  - apply update_first.
  - intros p <- Hp. by apply update_next.
  - intros d. unfold number. destruct (Z.ltb_spec d 0); split; (done || lia).
Qed.

Lemma update_elapsed_time_witness :
  let e0 := Emitter_new 1000 ∅ false in
  timestamp e0 = 0 ∧
  timestamp (ticks e0 [5; 1005]) = 1005 ∧
  uniforms_time (ticks e0 [5; 1005]) = 1%float ∧
  uniforms_time (update (ticks e0 [5; 1005]) 1505) = 1.5%float ∧
  uniforms_time (update (ticks e0 [5; 1005]) 1005) = 1%float.
Proof.
  intros e0.
  destruct (update_elapsed_time e0 [5; 1005] 1505 eq_refl) as (Hs & _ & _ & Hn & _).
  destruct (update_elapsed_time e0 [5; 1005] 1005 eq_refl) as (_ & _ & _ & Hsame & _).
  split; [reflexivity|]. split; [exact Hs|]. split; [reflexivity|].
  split.
  - exact (Hn 1005 Hs ltac:(lia)).
  - exact (Hsame 1005 Hs ltac:(lia)).
Defined.

(** C9, as stated, fails for a tick that follows a clock reading of 0:
    after a first tick at 0 the stored timestamp is 0, and a second tick at
    1000 adds zero where [(1000 - 0) / 1000] is 1. *)
Lemma update_after_reading_zero :
  let e1 := update (Emitter_new 1000 ∅ false) 0 in
  timestamp e1 = 0 ∧
  uniforms_time e1 = 0%float ∧
  uniforms_time (update e1 1000) = 0%float ∧
  PrimFloat.add (uniforms_time e1)
    (PrimFloat.div (PrimFloat.of_uint63 (Uint63.of_Z (1000 - 0))) 1000%float)
  = 1%float ∧
  uniforms_time (update e1 1000) ≠ 1%float.
Proof.
  intros e1. split; [reflexivity|]. split; [reflexivity|].
  split; [reflexivity|]. split; [reflexivity|].
  intros Heq. apply (f_equal PrimFloat.is_zero) in Heq. vm_compute in Heq.
  discriminate Heq.
Qed.

(** A run of three ticks: 1 s, then 0.5 s. *)
Example update_three_ticks :
  uniforms_time (ticks (Emitter_new 1000 ∅ false) [5; 1005; 1505]) = 1.5%float.
Proof. reflexivity. Qed.

(** The sum is a sum of doubles: ticks at 1, 101 and 301 leave
    [0.1 + 0.2], ticks at 1 and 301 leave [0.3], and the two doubles
    differ. *)
Example update_sums_doubles :
  let e := Emitter_new 1000 ∅ false in
  uniforms_time (ticks e [1; 101; 301])
  = PrimFloat.add (PrimFloat.div 1 10) (PrimFloat.div 2 10) ∧
  uniforms_time (ticks e [1; 301]) = PrimFloat.div 3 10 ∧
  PrimFloat.eqb (uniforms_time (ticks e [1; 101; 301]))
                (uniforms_time (ticks e [1; 301])) = false.
Proof. intros e. split; [reflexivity|]. split; reflexivity. Qed.

(** ** Typed-array lemmas *)

Lemma write_at_length (arr : list Z) (pos : nat) (src : list Z) :
  (pos + length src ≤ length arr)%nat →
  length (TypedArray.write_at arr pos src) = length arr.
Proof.
  intros Hfit. unfold TypedArray.write_at.
  rewrite !length_app, length_take, length_drop. lia.
Qed.

Lemma relative_range len i : 0 ≤ len → 0 ≤ TypedArray.relative len i ≤ len.
Proof.
  intros Hlen. unfold TypedArray.relative.
  destruct (Z.ltb_spec i 0); lia.
Qed.

Lemma TypedArray_set_length (target src out : list Z) (offset : Z) :
  TypedArray.set target src offset = Normal out → length out = length target.
Proof.
  unfold TypedArray.set. case_bool_decide as Hb; [done|].
  intros Heq. injection Heq as <-. apply write_at_length. lia.
Qed.

Lemma TypedArray_fill_length (target : list Z) (v start end_ : Z) :
  length (TypedArray.fill target v start end_) = length target.
Proof.
  unfold TypedArray.fill. case_bool_decide as Hb; [|done].
  pose proof (relative_range (Z.of_nat (length target)) start ltac:(lia)).
  pose proof (relative_range (Z.of_nat (length target)) end_ ltac:(lia)).
  rewrite !length_app, length_take, length_replicate, length_drop. lia.
Qed.

(** ** Removal keeps the shape of the emitter *)

Lemma same_shape_refl e : same_shape e e.
Proof. by repeat split. Qed.

Lemma same_shape_trans e1 e2 e3 :
  same_shape e1 e2 → same_shape e2 e3 → same_shape e1 e3.
Proof.
  intros (Hm & Hk & Hc & Ha) (Hm' & Hk' & Hc' & Ha').
  split; [congruence|]. split; [congruence|]. split; [congruence|].
  intros name. by rewrite Ha', Ha.
Qed.

Lemma removeAndShift_step_shape inst name v e :
  0 ≤ default 0 (attributeIndices inst !! name)
    ≤ from_option (λ g, Z.of_nat (length (THREE.array g))) 0
        (geometry_attributes e !! name) ∨ geometry_attributes e !! name = None →
  ∃ e', removeAndShift_step inst name v e = Normal e' ∧ same_shape e e'.
Proof.
  intros Hb. unfold removeAndShift_step.
  destruct (geometry_attributes e !! name) as [g|] eqn:Hg.
  2:{ eexists; split; [done|]. apply same_shape_refl. }
  destruct Hb as [Hb|]; [|done]. simpl in Hb.
  set (start := default 0 (attributeIndices inst !! name)) in *.
  set (len := Z.of_nat (length (THREE.array g))).
  set (end_ := start + Z.of_nat (v_length v)).
  pose proof (relative_range len end_ ltac:(lia)) as Hrel.
  assert (Hfst : fst (TypedArray.subarray len end_ len) = Z.min end_ len).
  { unfold TypedArray.subarray, TypedArray.relative. simpl.
    destruct (end_ <? 0) eqn:Hneg; [lia|done]. }
  rewrite Hfst.
  destruct (TypedArray.set _ _ start) as [shifted|bad] eqn:Hset.
  - eexists; split; [done|]. repeat split; simpl; try done.
    intros n. destruct (decide (name = n)) as [<-|Hne].
    + rewrite lookup_insert_eq, Hg. simpl. f_equal.
      rewrite TypedArray_fill_length. by eapply TypedArray_set_length.
    + by rewrite lookup_insert_ne.
  - exfalso. revert Hset. unfold TypedArray.set.
    rewrite bool_decide_false; [done|]. rewrite length_drop. lia.
Qed.

Lemma removeAndShiftAttributes_shape e inst :
  starts_in_bounds e inst →
  ∃ e', removeAndShiftAttributes e inst = Normal e' ∧ same_shape e e'.
Proof.
  unfold starts_in_bounds, removeAndShiftAttributes.
  generalize (attributes inst) as m.
  intros m. apply (map_fold_weak_ind
    (λ (r : completion Emitter) (m : gmap string View),
       (∀ name v g, m !! name = Some v → geometry_attributes e !! name = Some g →
          0 ≤ default 0 (attributeIndices inst !! name)
            ≤ Z.of_nat (length (THREE.array g))) →
       ∃ e', r = Normal e' ∧ same_shape e e')).
  - intros _. eexists; split; [done|]. apply same_shape_refl.
  - intros name v m' r Hfresh IH Hb.
    destruct IH as (e1 & -> & Hs1).
    { intros n v' g Hn. apply (Hb n v' g). rewrite lookup_insert_ne; [done|].
      intros ->. congruence. }
    destruct (removeAndShift_step_shape inst name v e1) as (e2 & Hstep & Hs2).
    { destruct Hs1 as (_ & _ & _ & Ha). specialize (Ha name).
      destruct (geometry_attributes e1 !! name) as [g1|] eqn:Hg1; [|by right].
      left. simpl.
      destruct (geometry_attributes e !! name) as [g|] eqn:Hg; [|done].
      simpl in Ha. injection Ha as Ha. rewrite Ha.
      apply (Hb name v g); [apply lookup_insert_eq | done]. }
    exists e2. split; [done|]. by eapply same_shape_trans.
Qed.

Lemma starts_in_bounds_shape e e' inst :
  (∀ name,
     (λ g, length (THREE.array g)) <$> (geometry_attributes e' !! name)
     = (λ g, length (THREE.array g)) <$> (geometry_attributes e !! name)) →
  starts_in_bounds e inst → starts_in_bounds e' inst.
Proof.
  intros Ha Hb name v g' Hv Hg'. specialize (Ha name).
  rewrite Hg' in Ha. simpl in Ha.
  destruct (geometry_attributes e !! name) as [g|] eqn:Hg; [|done].
  injection Ha as Ha. rewrite Ha. by apply (Hb name v g).
Qed.

(** ** The active count along a sequence of calls *)

Section ActiveCount.

Variable obj : ref → EmitterInstance.
Hypothesis amount_nonneg : ∀ r, 0 ≤ particleAmount (obj r).

Lemma registered_total_empty : registered_total obj ∅ = 0.
Proof. unfold registered_total. by rewrite set_fold_empty. Qed.

Lemma registered_total_insert (r : ref) (K : gset ref) :
  r ∉ K →
  registered_total obj ({[r]} ∪ K) = particleAmount (obj r) + registered_total obj K.
Proof.
  intros Hr. unfold registered_total.
  rewrite (set_fold_disj_union_strong (=));
    [| solve_proper | | by apply disjoint_singleton_l].
  - rewrite set_fold_singleton.
    rewrite (set_fold_comm_acc _ (λ y, particleAmount (obj r) + y)); [done|].
    intros; lia.
  - intros; lia.
Qed.

Lemma registered_total_delete (r : ref) (K : gset ref) :
  r ∈ K →
  registered_total obj (K ∖ {[r]}) = registered_total obj K - particleAmount (obj r).
Proof.
  intros Hr. rewrite (union_difference_singleton_L r K Hr) at 2.
  rewrite registered_total_insert; [lia|].
  rewrite elem_of_difference, elem_of_singleton. tauto.
Qed.

Lemma members_insert_id (r : ref) (K : gset ref) : r ∈ K → {[r]} ∪ K = K.
Proof. intros Hr. by apply subseteq_union_1_L, singleton_subseteq_l. Qed.

Lemma members_delete_id (r : ref) (K : gset ref) : r ∉ K → K ∖ {[r]} = K.
Proof. intros Hr. by apply difference_disjoint_L, disjoint_singleton_r. Qed.

Lemma registered_total_nonneg (K : gset ref) : 0 ≤ registered_total obj K.
Proof.
  unfold registered_total.
  apply (set_fold_ind_L (λ acc _, 0 ≤ acc)); [lia|].
  intros r X acc _ Hacc. specialize (amount_nonneg r). lia.
Qed.

Lemma removals_within_take max cs : ∀ K n,
  removals_within obj max K cs → removals_within obj max K (take n cs).
Proof.
  induction cs as [|c cs IH]; intros K n H.
  - by destruct n.
  - destruct n as [|n]; [done|]. destruct H as [Hc H].
    split; [done|]. by apply IH.
Qed.

(** The count is the clamped sum along a run whose removals are within the
    bound. *)
Lemma run_min_of_sum (cs : list call) : ∀ e,
  0 ≤ maxParticles e →
  (∀ r, starts_in_bounds e (obj r)) →
  instanceCount e = Z.min (maxParticles e) (registered_total obj (knownInstances e)) →
  removals_within obj (maxParticles e) (knownInstances e) cs →
  ∃ e', run obj e cs = Normal e' ∧
        instanceCount e'
        = Z.min (maxParticles e') (registered_total obj (knownInstances e')).
Proof.
  induction cs as [|c cs IH]; intros e Hmax Hb Hcount Hrem.
  - exists e. by split.
  - destruct Hrem as [Hc Hrem]. pose proof amount_nonneg as Hnn.
    pose proof (registered_total_nonneg (knownInstances e)) as Htot.
    destruct c as [r|r]; simpl in *.
    + unfold instanceAdded.
      destruct (decide (r ∈ knownInstances e)) as [Hr|Hr].
      * apply IH; [done|done|done|].
        by rewrite (members_insert_id r) in Hrem.
      * apply IH; simpl; [done|apply Hb| |done].
        rewrite registered_total_insert by done. specialize (Hnn r). lia.
    + unfold instanceRemoved.
      destruct (decide (r ∈ knownInstances e)) as [Hr|Hr].
      * pose proof (registered_total_nonneg (knownInstances e ∖ {[r]})) as Hrest.
        rewrite registered_total_delete in Hrest by done.
        set (e1 := set_instanceCount e _).
        destruct (removeAndShiftAttributes_shape e1 (obj r)) as (e2 & -> & Hs).
        { apply Hb. }
        pose proof Hs as (Hm & Hk & Hcnt & Ha). simpl in Hm, Hk, Hcnt.
        apply IH; simpl.
        -- lia.
        -- intros r'. apply (starts_in_bounds_shape e); [|apply Hb].
           intros name. simpl. apply Ha.
        -- rewrite Hcnt, Hm, Hk, registered_total_delete by done.
           specialize (Hnn r). destruct (Hc Hr) as [Hle|[Hzero|Hall]]; lia.
        -- by rewrite Hm, Hk.
      * apply IH; [done|done|done|].
        by rewrite (members_delete_id r) in Hrem.
Qed.

(** C2, as the code has it. From a new emitter with a bound that is not
    negative, with particle amounts that are not negative and views that
    start within their buffers: along every sequence of registrations and
    removals in which each removal of a member happens while the sum over
    the members is within [maxParticles] (or takes out an instance of
    amount 0, or the instance that carries the whole sum), every call
    completes and the count after it is
    [min (maxParticles, sum over the registered instances)].
    Registrations may take the sum beyond the bound. *)
Theorem instanceCount_min_of_sum
    (max : Z) (attrs : gmap string THREE.BufferAttribute) (auto : bool)
    (cs : list call) (n : nat) :
  0 ≤ max →
  (∀ r, starts_in_bounds (Emitter_new max attrs auto) (obj r)) →
  removals_within obj max ∅ cs →
  ∃ e, run obj (Emitter_new max attrs auto) (take n cs) = Normal e ∧
       instanceCount e
       = Z.min (maxParticles e) (registered_total obj (knownInstances e)).
Proof.
  intros Hmax Hb Hrem.
  apply (run_min_of_sum (take n cs) (Emitter_new max attrs auto)).
  - done.
  - done.
  - simpl. rewrite registered_total_empty. lia.
  - simpl. by apply removals_within_take.
Qed.

End ActiveCount.

(** C2, as stated, fails once the count has saturated: with
    [maxParticles = 10], registering two instances of 8 particles gives
    the count 10, and unregistering the first gives 2, while one instance
    of 8 particles is registered. *)
Lemma instanceCount_after_saturation :
  let obj := λ _ : ref, plain_instance 8 in
  ∃ e, run obj (Emitter_new 10 ∅ false)
         [Register 0%nat; Register 1%nat; Unregister 0%nat] = Normal e ∧
       instanceCount e = 2 ∧
       Z.min (maxParticles e) (registered_total obj (knownInstances e)) = 8 ∧
       instanceCount e
       ≠ Z.min (maxParticles e) (registered_total obj (knownInstances e)).
Proof.
  intros obj. eexists. split; [vm_compute; reflexivity|].
  split; [reflexivity|]. split; [reflexivity|]. vm_compute. discriminate.
Qed.

(** ** The views an instance computes *)

Lemma calculate_fold_lookup (e : Emitter) (inst0 : EmitterInstance)
    (m : gmap string THREE.BufferAttribute) (name : string) :
  let inst := map_fold (calculate_step e) inst0 m in
  particleAmount inst = particleAmount inst0 ∧
  attributes inst !! name
  = match m !! name with
    | None => attributes inst0 !! name
    | Some attr =>
        if decide (maxParticles e ≤ THREE.count attr)
        then Some (sub_view attr (recorded_start e inst0 name attr)
                                 (recorded_end e inst0 name attr))
        else Some (default (whole_view attr) (attributes inst0 !! name))
    end ∧
  attributeIndices inst !! name
  = match m !! name with
    | None => attributeIndices inst0 !! name
    | Some attr =>
        if decide (maxParticles e ≤ THREE.count attr)
        then Some (recorded_start e inst0 name attr)
        else attributeIndices inst0 !! name
    end.
Proof.
  simpl. revert name.
  apply (map_fold_weak_ind
    (λ (inst : EmitterInstance) (m : gmap string THREE.BufferAttribute),
       ∀ name,
       particleAmount inst = particleAmount inst0 ∧
       attributes inst !! name
       = match m !! name with
         | None => attributes inst0 !! name
         | Some attr =>
             if decide (maxParticles e ≤ THREE.count attr)
             then Some (sub_view attr (recorded_start e inst0 name attr)
                                      (recorded_end e inst0 name attr))
             else Some (default (whole_view attr) (attributes inst0 !! name))
         end ∧
       attributeIndices inst !! name
       = match m !! name with
         | None => attributeIndices inst0 !! name
         | Some attr =>
             if decide (maxParticles e ≤ THREE.count attr)
             then Some (recorded_start e inst0 name attr)
             else attributeIndices inst0 !! name
         end)).
  - intros name. by rewrite lookup_empty.
  - intros i attr m' inst Hfresh IH name.
    destruct (IH i) as (Hp & Hvi & Hii). rewrite Hfresh in Hvi, Hii.
    destruct (IH name) as (_ & Hvn & Hin).
    unfold calculate_step.
    destruct (decide (maxParticles e ≤ THREE.count attr)) as [Hper|Hshared].
    + simpl. split; [done|].
      destruct (decide (i = name)) as [->|Hne].
      * rewrite !lookup_insert_eq. unfold recorded_end, recorded_start.
        destruct (decide (maxParticles e ≤ THREE.count attr)); [|lia].
        by rewrite Hii, Hp.
      * by rewrite !lookup_insert_ne.
    + destruct (attributes inst !! i) as [old|] eqn:Hold.
      * split; [done|]. destruct (decide (i = name)) as [->|Hne].
        -- rewrite lookup_insert_eq.
           destruct (decide (maxParticles e ≤ THREE.count attr)); [lia|].
           rewrite Hold, Hii. by rewrite <- Hvi.
        -- by rewrite lookup_insert_ne.
      * simpl. split; [done|]. destruct (decide (i = name)) as [->|Hne].
        -- rewrite !lookup_insert_eq.
           destruct (decide (maxParticles e ≤ THREE.count attr)); [lia|].
           rewrite Hii. by rewrite <- Hvi.
        -- by rewrite !lookup_insert_ne.
Qed.

Lemma calculate_plain_lookup (e : Emitter) (n : Z) (name : string)
    (attr : THREE.BufferAttribute) :
  geometry_attributes e !! name = Some attr →
  let inst := calculateAttributeSubarrays e (plain_instance n) in
  let start := Z.max 0 (instanceCount e * THREE.itemSize attr) in
  let end_ := Z.min (Z.of_nat (length (THREE.array attr)))
                    (start + n * THREE.itemSize attr) in
  particleAmount inst = n ∧
  attributes inst !! name
  = Some (if decide (maxParticles e ≤ THREE.count attr)
          then sub_view attr start end_ else whole_view attr) ∧
  attributeIndices inst !! name
  = (if decide (maxParticles e ≤ THREE.count attr) then Some start else None).
Proof.
  intros Hattr. simpl.
  destruct (calculate_fold_lookup e (plain_instance n) (geometry_attributes e) name)
    as (Hp & Hv & Hi).
  rewrite Hattr in Hv, Hi. unfold calculateAttributeSubarrays.
  split; [done|]. split.
  - rewrite Hv. by destruct (decide (maxParticles e ≤ THREE.count attr)).
  - rewrite Hi. by destruct (decide (maxParticles e ≤ THREE.count attr)).
Qed.

(** The instances that the constructor builds record starts within the
    buffers, when the active count is within its bound and every buffer
    holds [count] items of [itemSize] components. *)
Lemma constructed_starts_in_bounds (e : Emitter) (n : Z) :
  0 ≤ instanceCount e ≤ maxParticles e →
  (∀ name g, geometry_attributes e !! name = Some g →
             0 ≤ THREE.itemSize g ∧
             THREE.count g * THREE.itemSize g ≤ Z.of_nat (length (THREE.array g))) →
  starts_in_bounds e (calculateAttributeSubarrays e (plain_instance n)).
Proof.
  intros Hcount Hbuf name v g _ Hg.
  destruct (calculate_plain_lookup e n name g Hg) as (_ & _ & Hi).
  destruct (Hbuf name g Hg) as [Hw Hlen]. rewrite Hi.
  destruct (decide (maxParticles e ≤ THREE.count g)); simpl; [nia|lia].
Qed.

Lemma sub_view_range (attr : THREE.BufferAttribute) (start size : Z) :
  0 ≤ start → 0 ≤ size →
  let len := Z.of_nat (length (THREE.array attr)) in
  let v := sub_view attr start (Z.min len (start + size)) in
  v_proxy v = true ∧
  Z.of_nat (v_begin v) = Z.min start len ∧
  Z.of_nat (v_begin v + v_length v) = Z.min len (start + size).
Proof.
  intros Hstart Hsize len v. subst v.
  unfold sub_view, TypedArray.subarray, TypedArray.relative. fold len.
  destruct (Z.ltb_spec start 0); [lia|].
  destruct (Z.ltb_spec (Z.min len (start + size)) 0); [lia|]. simpl. lia.
Qed.

(** C5. Creating an instance of [n] items on an emitter whose active
    count is [T]: for an attribute of item size [w] that is treated as
    per-instance, the recorded start is [T * w]; the view begins there and
    has [n * w] elements when that fits the buffer, and otherwise it is
    cut at the end of the buffer. The constructor raises nothing. *)
Theorem EmitterInstance_new_view (w : World) (n : Z) (name : string)
    (attr : THREE.BufferAttribute) :
  geometry_attributes (emitter w) !! name = Some attr →
  maxParticles (emitter w) ≤ THREE.count attr →
  let T := instanceCount (emitter w) in
  let width := THREE.itemSize attr in
  let len := Z.of_nat (length (THREE.array attr)) in
  0 ≤ T → 0 ≤ n → 0 ≤ width →
  let created := EmitterInstance_new w n in
  ∃ inst v,
    heap (snd created) !! fst created = Some inst ∧
    particleAmount inst = n ∧
    attributeIndices inst !! name = Some (T * width) ∧
    attributes inst !! name = Some v ∧
    (T * width + n * width ≤ len →
       Z.of_nat (v_begin v) = T * width ∧ Z.of_nat (v_length v) = n * width) ∧
    (len < T * width + n * width →
       Z.of_nat (v_begin v) = Z.min (T * width) len ∧
       Z.of_nat (v_begin v + v_length v) = len) ∧
    Z.of_nat (v_begin v + v_length v) ≤ len.
Proof.
  intros Hattr Hper T width len HT Hn Hw created.
  destruct (calculate_plain_lookup (emitter w) n name attr Hattr) as (Hp & Hv & Hi).
  fold T width len in Hv, Hi.
  destruct (decide (maxParticles (emitter w) ≤ THREE.count attr)); [|lia].
  assert (0 ≤ T * width) as HTw by nia.
  assert (0 ≤ n * width) as Hnw by nia.
  rewrite Z.max_r in Hv, Hi by done.
  destruct (sub_view_range attr (T * width) (n * width) HTw Hnw) as (_ & Hb & He).
  fold len in Hb, He.
  eexists _, _. split.
  { subst created. unfold EmitterInstance_new. simpl. apply lookup_insert_eq. }
  split; [done|]. split; [done|]. split; [done|]. lia.
Qed.

Lemma sub_view_within (attr : THREE.BufferAttribute) (start end_ : Z) :
  v_proxy (sub_view attr start end_) = true ∧
  (v_begin (sub_view attr start end_) + v_length (sub_view attr start end_)
   ≤ length (THREE.array attr))%nat.
Proof.
  unfold sub_view, TypedArray.subarray. simpl. split; [done|].
  pose proof (relative_range (Z.of_nat (length (THREE.array attr))) start ltac:(lia)).
  pose proof (relative_range (Z.of_nat (length (THREE.array attr))) end_ ltac:(lia)).
  lia.
Qed.

(** C10, as the code has it. When an instance computes its views, an
    attribute whose [count] is at least [maxParticles] gets the proxied
    view of a range within the buffer and a recorded start: the start
    recorded before, else the end of the active items. An attribute whose
    [count] is below [maxParticles], whatever its declared kind, gets no
    new start; it gets the array itself (begin 0, the length of the
    buffer, no proxy) when the instance holds no view of that name, and
    the view that the instance holds is kept otherwise. So for a name of
    which the instance holds neither view nor start, as at construction,
    the attribute is treated as per-instance exactly when its [count] is
    at least [maxParticles]. *)
Theorem calculateAttributeSubarrays_views (e : Emitter) (inst0 : EmitterInstance)
    (name : string) (attr : THREE.BufferAttribute) :
  geometry_attributes e !! name = Some attr →
  let inst := calculateAttributeSubarrays e inst0 in
  let len := length (THREE.array attr) in
  let entire := {| v_begin := 0; v_length := len; v_proxy := false |} in
  let start :=
    default (Z.max 0 (instanceCount e * THREE.itemSize attr))
            (attributeIndices inst0 !! name) in
  let size := particleAmount inst0 * THREE.itemSize attr in
  (maxParticles e ≤ THREE.count attr →
     attributeIndices inst !! name = Some start ∧
     ∃ v, attributes inst !! name = Some v ∧
          v_proxy v = true ∧
          (v_begin v + v_length v ≤ len)%nat ∧
          (0 ≤ start → 0 ≤ size →
             Z.of_nat (v_begin v) = Z.min start (Z.of_nat len) ∧
             Z.of_nat (v_begin v + v_length v)
             = Z.min (Z.of_nat len) (start + size))) ∧
  (THREE.count attr < maxParticles e →
     attributeIndices inst !! name = attributeIndices inst0 !! name ∧
     attributes inst !! name = Some (default entire (attributes inst0 !! name)) ∧
     read_view e name entire = THREE.array attr) ∧
  (attributes inst0 !! name = None → attributeIndices inst0 !! name = None →
     (is_Some (attributeIndices inst !! name) ↔ maxParticles e ≤ THREE.count attr) ∧
     ∃ v, attributes inst !! name = Some v ∧
          (v_proxy v = true ↔ maxParticles e ≤ THREE.count attr) ∧
          (THREE.count attr < maxParticles e → v = entire)).
Proof.
  intros Hattr inst len entire start size.
  destruct (calculate_fold_lookup e inst0 (geometry_attributes e) name)
    as (_ & Hv & Hi).
  fold (calculateAttributeSubarrays e inst0) in Hv, Hi. fold inst in Hv, Hi.
  rewrite Hattr in Hv, Hi.
  unfold recorded_end, recorded_start in Hv, Hi. fold start size len in Hv, Hi.
  destruct (sub_view_within attr start (Z.min (Z.of_nat len) (start + size)))
    as [Hproxy Hwithin].
  split; [|split].
  - intros Hper.
    destruct (decide (maxParticles e ≤ THREE.count attr)); [|lia].
    split; [done|]. eexists. split; [done|]. split; [done|]. split; [done|].
    intros Hstart Hsize.
    destruct (sub_view_range attr start size Hstart Hsize) as (_ & Hb & He).
    by split.
  - intros Hshared.
    destruct (decide (maxParticles e ≤ THREE.count attr)); [lia|].
    split; [done|]. split; [done|].
    unfold read_view. rewrite Hattr. simpl. by apply take_ge.
  - intros Hnoview Hnostart. rewrite Hnoview in Hv. rewrite Hnostart in Hi.
    destruct (decide (maxParticles e ≤ THREE.count attr)) as [Hper|Hshared].
    + split.
      * rewrite Hi. split; [done|]. by eexists.
      * eexists. split; [done|]. split; [by split|]. lia.
    + split.
      * rewrite Hi. split; [|lia]. by intros [? ?].
      * exists entire. split; [done|]. split; [|done]. simpl. split; [done|lia].
Qed.

(** ** Filling with a vector *)

Lemma tile_length q value : length (tile q value) = (q * length value)%nat.
Proof.
  unfold tile. induction q as [|q IH]; [done|].
  simpl. rewrite length_app, IH. lia.
Qed.

Lemma write_at_nil (arr : list Z) (pos : nat) : TypedArray.write_at arr pos [] = arr.
Proof.
  unfold TypedArray.write_at. simpl. rewrite Nat.add_0_r. apply take_drop.
Qed.

Lemma write_at_app (arr : list Z) (pos : nat) (s1 s2 : list Z) :
  (pos + length s1 ≤ length arr)%nat →
  TypedArray.write_at (TypedArray.write_at arr pos s1) (pos + length s1) s2
  = TypedArray.write_at arr pos (s1 ++ s2).
Proof.
  intros Hfit. unfold TypedArray.write_at.
  rewrite length_app.
  rewrite (take_app_ge (take pos arr)) by (rewrite length_take; lia).
  rewrite length_take, Nat.min_l by lia.
  rewrite (take_app_ge s1) by lia.
  replace (pos + length s1 - pos - length s1)%nat with 0%nat by lia.
  rewrite take_0, app_nil_r.
  rewrite (drop_app_ge (take pos arr)) by (rewrite length_take; lia).
  rewrite length_take, Nat.min_l by lia.
  rewrite (drop_app_ge s1) by lia.
  rewrite drop_drop. rewrite <- !app_assoc. do 3 f_equal. f_equal. lia.
Qed.

Lemma write_at_outside (arr : list Z) (pos : nat) (src : list Z) (j : nat) :
  (pos + length src ≤ length arr)%nat →
  (j < pos ∨ pos + length src ≤ j)%nat →
  TypedArray.write_at arr pos src !! j = arr !! j.
Proof.
  intros Hfit Hj. unfold TypedArray.write_at. destruct Hj as [Hj|Hj].
  - rewrite lookup_app_l by (rewrite length_take; lia).
    by rewrite lookup_take_lt.
  - rewrite lookup_app_r by (rewrite length_take; lia).
    rewrite length_take, Nat.min_l by lia.
    rewrite lookup_app_r by lia. rewrite lookup_drop. f_equal. lia.
Qed.

Lemma fill_array_loop_tiles (v : View) (value : list Z) (q : nat) :
  ∀ (fuel : nat) (i rest : Z) (g : THREE.BufferAttribute),
    value ≠ [] →
    (v_begin v + v_length v ≤ length (THREE.array g))%nat →
    0 ≤ i →
    Z.of_nat (v_length v) - i = Z.of_nat q * Z.of_nat (length value) + rest →
    0 ≤ rest < Z.of_nat (length value) →
    (q < fuel)%nat →
    fill_array_loop fuel v value i g
    = Some ((if bool_decide (rest = 0) then Normal else RangeError)
              (tiled_from v g value i q)).
Proof.
  induction q as [|q IH]; intros fuel i rest g Hval Hview Hi Hsplit Hrest Hfuel.
  - destruct fuel as [|fuel]; [lia|]. simpl fill_array_loop.
    assert (tiled_from v g value i 0
            = if bool_decide (i < Z.of_nat (v_length v)) then touch v g else g) as ->.
    { unfold tiled_from, touch. simpl tile. rewrite write_at_nil.
      destruct g, (v_proxy v), (bool_decide _); simpl;
        rewrite ?orb_true_r, ?orb_false_r; done. }
    case_bool_decide as Hlt.
    + rewrite bool_decide_false by lia.
      unfold data_set. rewrite bool_decide_true by lia. done.
    + by rewrite bool_decide_true by lia.
  - destruct fuel as [|fuel]; [lia|]. simpl fill_array_loop.
    assert (0 < Z.of_nat (length value)) as Hk by (destruct value; simpl; [done|lia]).
    assert (Z.of_nat (length value) + i ≤ Z.of_nat (v_length v)) as Hstep by nia.
    assert (v_begin v + Z.to_nat i + length value ≤ length (THREE.array g))%nat
      as Hfit by lia.
    rewrite bool_decide_true by lia.
    unfold data_set. rewrite bool_decide_false by lia.
    rewrite (IH fuel _ rest); try done; try lia.
    + f_equal. f_equal. unfold tiled_from, touch.
      replace (v_begin v + Z.to_nat (i + Z.of_nat (length value)))%nat
        with ((v_begin v + Z.to_nat i) + length value)%nat by lia.
      assert (TypedArray.write_at
                (TypedArray.write_at (THREE.array g) (v_begin v + Z.to_nat i) value)
                (v_begin v + Z.to_nat i + length value) (tile q value)
              = TypedArray.write_at (THREE.array g) (v_begin v + Z.to_nat i)
                  (tile (S q) value)) as Harr.
      { by apply write_at_app. }
      rewrite (bool_decide_true (i < Z.of_nat (v_length v))) by lia.
      destruct g as [arr sz cnt dirty kind], (v_proxy v); simpl in *;
        rewrite Harr, ?orb_true_r, ?orb_false_r; simpl; done.
    + assert (THREE.array (touch v g) = THREE.array g) as Htouch
        by (unfold touch; by destruct (v_proxy v)).
      simpl. rewrite Htouch, write_at_length; [done|lia].
Qed.

Lemma fill_array_loop_from_start (v : View) (value : list Z) (fuel : nat)
    (g : THREE.BufferAttribute) :
  value ≠ [] →
  (v_begin v + v_length v ≤ length (THREE.array g))%nat →
  (v_length v < fuel)%nat →
  let L := Z.of_nat (v_length v) in
  let k := Z.of_nat (length value) in
  fill_array_loop fuel v value 0 g
  = Some ((if bool_decide (L mod k = 0) then Normal else RangeError)
            (tiled_from v g value 0 (Z.to_nat (L / k)))).
Proof.
  intros Hval Hview Hfuel L k.
  assert (0 < k) as Hk by (subst k; destruct value; simpl; [done|lia]).
  pose proof (Z.div_mod L k ltac:(lia)) as Hdm.
  pose proof (Z.mod_pos_bound L k Hk) as Hmod.
  assert (0 ≤ L / k) as Hq by (apply Z.div_pos; lia).
  apply (fill_array_loop_tiles v value (Z.to_nat (L / k)) fuel 0 (L mod k) g);
    try done; try lia.
  assert (L / k ≤ L) by (apply Z.div_le_upper_bound; nia). lia.
Qed.

(** C3, as the code has it. A vector that is not empty is written through
    a view from its first index on, once for every whole copy that fits.
    When the length of the vector divides the length of the view the call
    completes; when it does not, the call raises a [RangeError] after the
    whole copies, and the rest of the view is left as it was. Nothing
    outside the view is written in either case. *)
Theorem fillAttribute_vector_tiling (fuel : nat) (e : Emitter)
    (inst : EmitterInstance) (name : string) (data : View)
    (g : THREE.BufferAttribute) (value : list Z) :
  attributes inst !! name = Some data →
  geometry_attributes e !! name = Some g →
  (v_begin data + v_length data ≤ length (THREE.array g))%nat →
  value ≠ [] →
  (v_length data < fuel)%nat →
  let L := Z.of_nat (v_length data) in
  let k := Z.of_nat (length value) in
  let q := Z.to_nat (L / k) in
  let g' := tiled_from data g value 0 q in
  EmitterInstance_fillAttribute fuel e inst name (VArray value)
  = Some ((if bool_decide (L mod k = 0) then Normal else RangeError)
            (store_attribute e name g')) ∧
  THREE.array g'
  = TypedArray.write_at (THREE.array g) (v_begin data) (tile q value) ∧
  (q * length value ≤ v_length data)%nat ∧
  length (THREE.array g') = length (THREE.array g) ∧
  ∀ j : nat, (j < v_begin data ∨ v_begin data + q * length value ≤ j)%nat →
             THREE.array g' !! j = THREE.array g !! j.
Proof.
  intros Hdata Hg Hview Hval Hfuel L k q g'.
  assert (0 < k) as Hk by (subst k; destruct value; simpl; [done|lia]).
  assert (q * length value ≤ v_length data)%nat as Hq.
  { subst q. pose proof (Z.div_mod L k ltac:(lia)).
    pose proof (Z.mod_pos_bound L k Hk).
    assert (0 ≤ L / k) by (apply Z.div_pos; lia). nia. }
  assert (THREE.array g'
          = TypedArray.write_at (THREE.array g) (v_begin data) (tile q value)) as Harr.
  { subst g'. unfold tiled_from. simpl. by rewrite Nat.add_0_r. }
  split; [|split; [done|split; [done|split]]].
  - unfold EmitterInstance_fillAttribute. rewrite Hdata, Hg.
    rewrite (fill_array_loop_from_start data value fuel g Hval Hview Hfuel).
    simpl. fold L k q g'. by destruct (bool_decide (L mod k = 0)).
  - rewrite Harr. apply write_at_length. rewrite tile_length. lia.
  - intros j Hj. rewrite Harr. apply write_at_outside; rewrite tile_length; lia.
Qed.

(** The same loop in [Emitter.fillAttribute], where the data is the whole
    array: the attribute is flagged when the call completes, and is left
    unflagged when it raises. *)
Lemma Emitter_fillAttribute_vector (fuel : nat) (e : Emitter) (name : string)
    (g : THREE.BufferAttribute) (value : list Z) :
  geometry_attributes e !! name = Some g →
  value ≠ [] →
  (length (THREE.array g) < fuel)%nat →
  let L := Z.of_nat (length (THREE.array g)) in
  let k := Z.of_nat (length value) in
  let g' := tiled_from (whole_view g) g value 0 (Z.to_nat (L / k)) in
  Emitter_fillAttribute fuel e name (VArray value)
  = Some (if bool_decide (L mod k = 0)
          then Normal (store_attribute e name (THREE.set_needsUpdate g' true))
          else RangeError (store_attribute e name g')).
Proof.
  intros Hg Hval Hfuel L k g'.
  unfold Emitter_fillAttribute. rewrite Hg.
  rewrite (fill_array_loop_from_start (whole_view g) value fuel g Hval);
    [|simpl; lia|done].
  simpl. fold L k g'. by destruct (bool_decide (L mod k = 0)).
Qed.

(** With an empty vector and a view that is not empty the loop does not
    advance: no amount of fuel lets it end. *)
Lemma fill_array_loop_empty_vector (fuel : nat) (v : View) (g : THREE.BufferAttribute) :
  (0 < v_length v)%nat → fill_array_loop fuel v [] 0 g = None.
Proof.
  intros Hlen. revert g. induction fuel as [|fuel IH]; intros g; simpl.
  - by rewrite bool_decide_true by lia.
  - rewrite bool_decide_true by lia. unfold data_set.
    rewrite bool_decide_false by (simpl; lia). simpl. apply IH.
Qed.

(** ** Removal and the surviving instances *)

(** Disposing an instance changes no instance object: the views and the
    recorded starts of the others are what they were. *)
Lemma EmitterInstance_dispose_heap (w w' : World) (r : ref) :
  EmitterInstance_dispose w r = Normal w' → heap w' = heap w.
Proof.
  unfold EmitterInstance_dispose.
  destruct (heap w !! r) as [inst|]; [|by intros [= <-]].
  destruct (instanceRemoved (emitter w) r inst); [|done].
  by intros [= <-].
Qed.

(** C1 on the code, at the scenario of the specification: X (4 items) and
    Y (3 items) are created on a buffer of item size 3 and filled, then X
    is disposed. The data of Y is moved to the front of the buffer, but
    the object of Y is unchanged: its recorded start is still 12 and its
    view still covers [12, 21), where it now reads zeros. *)
Theorem dispose_keeps_recorded_start :
  let x := fst (EmitterInstance_new scene 4) in
  let w1 := snd (EmitterInstance_new scene 4) in
  ∃ w2 w4 w5 instY viewY,
    World_fillAttribute 100 w1 x "pos" (VArray [1; 1; 1]) = Some (Normal w2) ∧
    let y := fst (EmitterInstance_new w2 3) in
    let w3 := snd (EmitterInstance_new w2 3) in
    World_fillAttribute 100 w3 y "pos" (VArray [7; 8; 9]) = Some (Normal w4) ∧
    heap w4 !! y = Some instY ∧
    attributeIndices instY !! "pos" = Some 12 ∧
    attributes instY !! "pos" = Some viewY ∧
    read_view (emitter w4) "pos" viewY = [7; 8; 9; 7; 8; 9; 7; 8; 9] ∧
    EmitterInstance_dispose w4 x = Normal w5 ∧
    heap w5 !! y = Some instY ∧
    THREE.array <$> geometry_attributes (emitter w5) !! "pos"
    = Some ([7; 8; 9; 7; 8; 9; 7; 8; 9] ++ replicate 21 0) ∧
    read_view (emitter w5) "pos" viewY = replicate 9 0.
Proof.
  intros x w1.
  eexists _, _, _, _, _.
  split; [vm_compute; reflexivity|]. cbv zeta.
  split; [vm_compute; reflexivity|].
  split; [vm_compute; reflexivity|].
  split; [vm_compute; reflexivity|].
  split; [vm_compute; reflexivity|].
  split; [vm_compute; reflexivity|].
  split; [vm_compute; reflexivity|].
  split; [vm_compute; reflexivity|].
  split; vm_compute; reflexivity.
Qed.

(** ** Filling and the update flag *)

Lemma data_set_unproxied_flag (v : View) (g : THREE.BufferAttribute)
    (src : list Z) (i : Z) :
  v_proxy v = false →
  THREE.needsUpdate (outcome (data_set v g src i)) = THREE.needsUpdate g.
Proof.
  intros Hv. unfold data_set, touch. rewrite Hv. by case_bool_decide.
Qed.

Lemma fill_array_loop_unproxied_flag (v : View) (value : list Z) (fuel : nat) :
  v_proxy v = false →
  ∀ i g c, fill_array_loop fuel v value i g = Some c →
           THREE.needsUpdate (outcome c) = THREE.needsUpdate g.
Proof.
  intros Hv. induction fuel as [|fuel IH]; intros i g c; simpl.
  - case_bool_decide; [done|]. by intros [= <-].
  - case_bool_decide; [|by intros [= <-]].
    pose proof (data_set_unproxied_flag v g value i Hv) as Hset.
    destruct (data_set v g value i) as [g'|g']; simpl in Hset.
    + intros Hloop. rewrite (IH _ _ _ Hloop). done.
    + by intros [= <-].
Qed.

Lemma fill_each_loop_unproxied_flag (v : View) (value : Z → Z) (fuel : nat) :
  v_proxy v = false →
  ∀ i g c, fill_each_loop fuel v value i g = Some c →
           THREE.needsUpdate (outcome c) = THREE.needsUpdate g.
Proof.
  intros Hv. induction fuel as [|fuel IH]; intros i g c; simpl.
  - case_bool_decide; [done|]. by intros [= <-].
  - case_bool_decide; [|by intros [= <-]].
    pose proof (data_set_unproxied_flag v g [value i] i Hv) as Hset.
    destruct (data_set v g [value i] i) as [g'|g']; simpl in Hset.
    + intros Hloop. rewrite (IH _ _ _ Hloop). done.
    + by intros [= <-].
Qed.

(** A fill through a view without the [Proxy] leaves the flag of the
    attribute as it was, whatever the value and however the call ends. *)
Lemma EmitterInstance_fillAttribute_unproxied (fuel : nat) (e : Emitter)
    (inst : EmitterInstance) (name : string) (data : View)
    (g : THREE.BufferAttribute) (value : FillValue Z) (c : completion Emitter) :
  attributes inst !! name = Some data →
  geometry_attributes e !! name = Some g →
  v_proxy data = false →
  EmitterInstance_fillAttribute fuel e inst name value = Some c →
  THREE.needsUpdate <$> geometry_attributes (outcome c) !! name
  = Some (THREE.needsUpdate g).
Proof.
  intros Hdata Hg Hv. unfold EmitterInstance_fillAttribute. rewrite Hdata, Hg.
  destruct value as [x|vs|f].
  - intros [= <-]. simpl. rewrite lookup_insert_eq. simpl.
    unfold touch. by rewrite Hv.
  - destruct (fill_array_loop fuel data vs 0 g) as [c'|] eqn:Hloop; [|done].
    intros [= <-].
    pose proof (fill_array_loop_unproxied_flag data vs fuel Hv _ _ _ Hloop) as Hflag.
    destruct c'; simpl in *; rewrite lookup_insert_eq; simpl; by rewrite Hflag.
  - destruct (fill_each_loop fuel data f 0 g) as [c'|] eqn:Hloop; [|done].
    intros [= <-].
    pose proof (fill_each_loop_unproxied_flag data f fuel Hv _ _ _ Hloop) as Hflag.
    destruct c'; simpl in *; rewrite lookup_insert_eq; simpl; by rewrite Hflag.
Qed.

(** [Emitter.fillAttribute] flags the attribute whenever it completes. *)
Lemma Emitter_fillAttribute_flags (fuel : nat) (e e' : Emitter) (name : string)
    (g : THREE.BufferAttribute) (value : FillValue Generated) :
  geometry_attributes e !! name = Some g →
  Emitter_fillAttribute fuel e name value = Some (Normal e') →
  THREE.needsUpdate <$> geometry_attributes e' !! name = Some true.
Proof.
  intros Hg. unfold Emitter_fillAttribute. rewrite Hg.
  destruct value as [x|vs|f].
  - intros [= <-]. simpl. by rewrite lookup_insert_eq.
  - destruct (fill_array_loop fuel _ vs 0 g) as [[g'|g']|]; simpl; [|done|done].
    intros [= <-]. simpl. by rewrite lookup_insert_eq.
  - destruct (fill_generator_loop fuel _ f 0 0 g) as [[g'|g']|]; simpl; [|done|done].
    intros [= <-]. simpl. by rewrite lookup_insert_eq.
Qed.

(** A scalar fill through a proxied view flags the attribute. *)
Lemma EmitterInstance_fillAttribute_proxied_number (fuel : nat) (e : Emitter)
    (inst : EmitterInstance) (name : string) (data : View)
    (g : THREE.BufferAttribute) (x : Z) :
  attributes inst !! name = Some data →
  geometry_attributes e !! name = Some g →
  v_proxy data = true →
  ∃ e', EmitterInstance_fillAttribute fuel e inst name (VNumber x) = Some (Normal e') ∧
        THREE.needsUpdate <$> geometry_attributes e' !! name = Some true.
Proof.
  intros Hdata Hg Hv. unfold EmitterInstance_fillAttribute. rewrite Hdata, Hg.
  eexists. split; [done|]. simpl. rewrite lookup_insert_eq. simpl.
  unfold touch. by rewrite Hv.
Qed.

(** C4 on the code: an attribute with fewer items than [maxParticles] is
    held by an instance as the plain array, and a fill through the
    instance (a scalar, a vector or a generator) changes the buffer and
    leaves [needsUpdate] false. *)
Theorem shared_fill_through_instance_not_flagged :
  let x := fst (EmitterInstance_new scene 2) in
  let w1 := snd (EmitterInstance_new scene 2) in
  ∃ inst wa wb wc,
    heap w1 !! x = Some inst ∧
    attributes inst !! "tint" = Some (whole_view tint_attribute) ∧
    THREE.needsUpdate <$> geometry_attributes (emitter w1) !! "tint" = Some false ∧
    World_fillAttribute 100 w1 x "tint" (VNumber 5) = Some (Normal wa) ∧
    geometry_attributes (emitter wa) !! "tint"
    = Some (THREE.set_array tint_attribute [5; 5; 5; 5]) ∧
    World_fillAttribute 100 w1 x "tint" (VArray [1; 2]) = Some (Normal wb) ∧
    geometry_attributes (emitter wb) !! "tint"
    = Some (THREE.set_array tint_attribute [1; 2; 1; 2]) ∧
    World_fillAttribute 100 w1 x "tint" (VFunction (λ i, 2 * i)) = Some (Normal wc) ∧
    geometry_attributes (emitter wc) !! "tint"
    = Some (THREE.set_array tint_attribute [0; 2; 4; 6]) ∧
    THREE.needsUpdate (THREE.set_array tint_attribute [5; 5; 5; 5]) = false.
Proof.
  intros x w1. eexists _, _, _, _.
  split; [vm_compute; reflexivity|].
  split; [vm_compute; reflexivity|].
  split; [vm_compute; reflexivity|].
  split; [vm_compute; reflexivity|].
  split; [vm_compute; reflexivity|].
  split; [vm_compute; reflexivity|].
  split; [vm_compute; reflexivity|].
  split; [vm_compute; reflexivity|].
  split; vm_compute; reflexivity.
Qed.

(** ** The theorems at concrete inputs *)

Lemma instanceAdded_idempotent_witness :
  let inst := plain_instance 4 in
  let e := instanceAdded scene_emitter 0%nat inst in
  0%nat ∈ knownInstances e ∧ instanceAdded e 0%nat inst = e ∧ instanceCount e = 4.
Proof.
  intros inst e.
  assert (0%nat ∈ knownInstances e) as Hin by apply instanceAdded_member.
  split; [exact Hin|]. split; [|reflexivity].
  exact (proj1 (instanceAdded_idempotent e 0%nat inst inst) Hin).
Defined.

Lemma instanceRemoved_non_member_witness :
  let inst := plain_instance 4 in
  (0%nat ∉ knownInstances scene_emitter) ∧
  instanceRemoved scene_emitter 0%nat inst = Normal scene_emitter.
Proof.
  intros inst.
  assert (0%nat ∉ knownInstances scene_emitter) as Hout by apply not_elem_of_empty.
  split; [exact Hout|].
  exact (proj1 (instanceRemoved_non_member scene_emitter 0%nat inst) Hout).
Defined.

Lemma scene_buffers_hold_count (name : string) (g : THREE.BufferAttribute) :
  geometry_attributes scene_emitter !! name = Some g →
  0 ≤ THREE.itemSize g ∧
  THREE.count g * THREE.itemSize g ≤ Z.of_nat (length (THREE.array g)).
Proof.
  unfold scene_emitter. simpl.
  intros [[_ <-]|[_ [_ <-]%lookup_singleton_Some]]%lookup_insert_Some.
  - simpl. lia.
  - simpl. lia.
Qed.

Lemma instanceCount_min_of_sum_witness :
  let obj := λ _ : ref, calculateAttributeSubarrays scene_emitter (plain_instance 8) in
  let cs := [Register 0%nat; Unregister 0%nat; Register 0%nat; Register 1%nat;
             Register 2%nat] in
  removals_within obj 10 ∅ cs ∧
  ∃ e, run obj scene_emitter (take 5 cs) = Normal e ∧
       instanceCount e
       = Z.min (maxParticles e) (registered_total obj (knownInstances e)) ∧
       instanceCount e = 10 ∧
       registered_total obj (knownInstances e) = 24.
Proof.
  intros obj cs.
  assert (removals_within obj 10 ∅ cs) as Hrem.
  { simpl. repeat split. intros _. left. vm_compute. discriminate. }
  split; [exact Hrem|].
  destruct (instanceCount_min_of_sum obj ltac:(intros r; vm_compute; discriminate)
              10 {[ "pos" := pos_attribute; "tint" := tint_attribute ]} false cs 5)
    as (e & Hrun & Hcount).
  - lia.
  - intros r. apply constructed_starts_in_bounds.
    + simpl. lia.
    + apply scene_buffers_hold_count.
  - exact Hrem.
  - exists e. split; [exact Hrun|]. split; [exact Hcount|].
    vm_compute in Hrun. injection Hrun as <-. split; vm_compute; reflexivity.
Defined.

Lemma EmitterInstance_new_view_witness :
  let w := snd (EmitterInstance_new scene 4) in
  let created := EmitterInstance_new w 3 in
  instanceCount (emitter w) = 4 ∧
  ∃ inst v,
    heap (snd created) !! fst created = Some inst ∧
    attributeIndices inst !! "pos" = Some 12 ∧
    attributes inst !! "pos" = Some v ∧
    Z.of_nat (v_begin v) = 12 ∧ Z.of_nat (v_length v) = 9.
Proof.
  intros w created. split; [reflexivity|].
  destruct (EmitterInstance_new_view w 3 "pos" pos_attribute)
    as (inst & v & Hheap & _ & Hstart & Hview & Hfit & _).
  - vm_compute; reflexivity.
  - vm_compute; discriminate.
  - vm_compute; discriminate.
  - lia.
  - vm_compute; discriminate.
  - exists inst, v. split; [exact Hheap|]. split; [exact Hstart|].
    split; [exact Hview|]. apply Hfit. vm_compute; discriminate.
Defined.

Lemma calculateAttributeSubarrays_views_witness :
  let inst := calculateAttributeSubarrays scene_emitter (plain_instance 4) in
  geometry_attributes scene_emitter !! "tint" = Some tint_attribute ∧
  THREE.count tint_attribute < maxParticles scene_emitter ∧
  attributes inst !! "tint"
  = Some {| v_begin := 0; v_length := 4; v_proxy := false |} ∧
  attributeIndices inst !! "tint" = None ∧
  attributeIndices inst !! "pos" = Some 0 ∧
  ∃ v, attributes inst !! "pos" = Some v ∧ v_proxy v = true ∧
       Z.of_nat (v_begin v) = 0 ∧ Z.of_nat (v_begin v + v_length v) = 12.
Proof.
  intros inst.
  assert (geometry_attributes scene_emitter !! "tint" = Some tint_attribute) as Htint
    by (vm_compute; reflexivity).
  assert (geometry_attributes scene_emitter !! "pos" = Some pos_attribute) as Hpos
    by (vm_compute; reflexivity).
  assert (THREE.count tint_attribute < maxParticles scene_emitter) as Hlt
    by (simpl; lia).
  destruct (calculateAttributeSubarrays_views scene_emitter (plain_instance 4) "tint"
              tint_attribute Htint) as (_ & Hshared & _).
  destruct (calculateAttributeSubarrays_views scene_emitter (plain_instance 4) "pos"
              pos_attribute Hpos) as (Hper & _ & _).
  destruct (Hshared Hlt) as (Hstart & Hview & _).
  destruct (Hper ltac:(simpl; lia)) as (Hrec & v & Hv & Hproxy & _ & Hrange).
  destruct (Hrange ltac:(vm_compute; discriminate) ltac:(vm_compute; discriminate))
    as (Hbegin & Hend).
  split; [exact Htint|]. split; [exact Hlt|]. split; [exact Hview|].
  split; [exact Hstart|]. split; [exact Hrec|].
  exists v. split; [exact Hv|]. split; [exact Hproxy|].
  split; [exact Hbegin|exact Hend].
Defined.

(** C10, as stated, fails when the views are computed again. The instance
    of the scene holds the proxied view [0, 12) of [pos] with the recorded
    start 0. After [emitter.maxParticles = 20], and also after
    [setAttributes] has put an attribute of 2 items in the place of
    [pos], the count of [pos] is below [maxParticles], and computing the
    views again leaves the proxied view and the recorded start: the
    instance does not get the entire buffer. *)
Lemma recalculation_keeps_views :
  let old := {| v_begin := 0; v_length := 12; v_proxy := true |} in
  attributes scene_instance !! "pos" = Some old ∧
  (let e := set_maxParticles scene_registered 20 in
   let inst := calculateAttributeSubarrays e scene_instance in
   geometry_attributes e !! "pos" = Some pos_attribute ∧
   THREE.count pos_attribute < maxParticles e ∧
   attributes inst !! "pos" = Some old ∧
   attributeIndices inst !! "pos" = Some 0 ∧
   attributes inst !! "pos" ≠ Some (whole_view pos_attribute)) ∧
  (let e := setAttributes scene_registered {[ "pos" := small_attribute ]} in
   let inst := calculateAttributeSubarrays e scene_instance in
   geometry_attributes e !! "pos" = Some small_attribute ∧
   THREE.count small_attribute < maxParticles e ∧
   attributes inst !! "pos" = Some old ∧
   attributeIndices inst !! "pos" = Some 0 ∧
   attributes inst !! "pos" ≠ Some (whole_view small_attribute)).
Proof.
  intros old. split; [vm_compute; reflexivity|]. split.
  - intros e inst.
    split; [vm_compute; reflexivity|]. split; [vm_compute; reflexivity|].
    split; [vm_compute; reflexivity|]. split; [vm_compute; reflexivity|].
    vm_compute. discriminate.
  - intros e inst.
    split; [vm_compute; reflexivity|]. split; [vm_compute; reflexivity|].
    split; [vm_compute; reflexivity|]. split; [vm_compute; reflexivity|].
    vm_compute. discriminate.
Qed.

Lemma fillAttribute_vector_tiling_witness :
  let e := scene_emitter in
  let inst := calculateAttributeSubarrays e (plain_instance 4) in
  let data := {| v_begin := 0; v_length := 12; v_proxy := true |} in
  attributes inst !! "pos" = Some data ∧
  EmitterInstance_fillAttribute 100 e inst "pos" (VArray [1; 1; 1])
  = Some (Normal (store_attribute e "pos"
                    (tiled_from data pos_attribute [1; 1; 1] 0 4))) ∧
  EmitterInstance_fillAttribute 100 e inst "pos" (VArray [1; 2; 3; 4; 5])
  = Some (RangeError (store_attribute e "pos"
                        (tiled_from data pos_attribute [1; 2; 3; 4; 5] 0 2))).
Proof.
  intros e inst data.
  assert (attributes inst !! "pos" = Some data) as Hdata by (vm_compute; reflexivity).
  assert (geometry_attributes e !! "pos" = Some pos_attribute) as Hg
    by (vm_compute; reflexivity).
  split; [exact Hdata|]. split.
  - refine (proj1 (fillAttribute_vector_tiling 100 e inst "pos" data pos_attribute
                     [1; 1; 1] Hdata Hg _ _ _)); [simpl; lia|done|simpl; lia].
  - refine (proj1 (fillAttribute_vector_tiling 100 e inst "pos" data pos_attribute
                     [1; 2; 3; 4; 5] Hdata Hg _ _ _)); [simpl; lia|done|simpl; lia].
Defined.

(** C3, as stated, fails: a vector of 5 components through a view of 12
    elements, and a vector of 3 components into an array of 4 elements,
    end in a [RangeError]; the whole copies that fit have been written. *)
Lemma fillAttribute_vector_raises :
  let x := fst (EmitterInstance_new scene 4) in
  let w1 := snd (EmitterInstance_new scene 4) in
  ∃ inst w' e',
    heap w1 !! x = Some inst ∧
    attributes inst !! "pos" = Some {| v_begin := 0; v_length := 12; v_proxy := true |} ∧
    World_fillAttribute 100 w1 x "pos" (VArray [1; 2; 3; 4; 5]) = Some (RangeError w') ∧
    THREE.array <$> geometry_attributes (emitter w') !! "pos"
    = Some ([1; 2; 3; 4; 5; 1; 2; 3; 4; 5] ++ replicate 20 0) ∧
    Emitter_fillAttribute 100 scene_emitter "tint" (VArray [1; 2; 3])
    = Some (RangeError e') ∧
    THREE.array <$> geometry_attributes e' !! "tint" = Some [1; 2; 3; 0].
Proof.
  intros x w1. eexists _, _, _.
  split; [vm_compute; reflexivity|].
  split; [vm_compute; reflexivity|].
  split; [vm_compute; reflexivity|].
  split; [vm_compute; reflexivity|].
  split; vm_compute; reflexivity.
Qed.

(** * Further properties *)

(** ** What a removal does to the buffers *)

Lemma compacted_length (arr : list Z) (start n : nat) :
  (start + n ≤ length arr)%nat → length (compacted arr start n) = length arr.
Proof.
  intros Hfit. unfold compacted. destruct n as [|n].
  - apply length_replicate.
  - rewrite !length_app, length_take, length_drop, length_replicate. lia.
Qed.

Lemma shift_then_clear (arr : list Z) (start n : nat) :
  (start + n ≤ length arr)%nat →
  TypedArray.fill
    (TypedArray.write_at arr start (drop (start + n) arr))
    0 (- Z.of_nat n) (Z.of_nat (length arr))
  = compacted arr start n.
Proof.
  intros Hfit.
  set (shifted := TypedArray.write_at arr start (drop (start + n) arr)).
  assert (length shifted = length arr) as Hlen.
  { subst shifted. apply write_at_length. rewrite length_drop. lia. }
  unfold TypedArray.fill. rewrite Hlen.
  unfold TypedArray.relative.
  destruct (Z.ltb_spec (Z.of_nat (length arr)) 0) as [?|_]; [lia|].
  rewrite Z.min_id.
  destruct n as [|n'].
  - change (- Z.of_nat 0) with 0. simpl (0 <? 0).
    rewrite Z.min_l by lia. case_bool_decide as Hpos.
    + rewrite Z.sub_0_r, Nat2Z.id. simpl.
      rewrite drop_ge by lia. by rewrite app_nil_r.
    + simpl in Hpos. unfold compacted.
      assert (length arr = 0%nat) as Hz by lia. rewrite Hz.
      destruct shifted; [done|simpl in Hlen; lia].
  - destruct (Z.ltb_spec (- Z.of_nat (S n')) 0) as [_|?]; [|lia].
    rewrite bool_decide_true by lia.
    rewrite (drop_ge shifted) by lia. rewrite app_nil_r.
    unfold compacted. rewrite app_assoc. f_equal.
    + subst shifted. unfold TypedArray.write_at.
      rewrite app_assoc. rewrite take_app_le.
      2:{ rewrite length_app, length_take, length_drop. lia. }
      rewrite take_ge; [done|].
      rewrite length_app, length_take, length_drop. lia.
    + f_equal. lia.
Qed.

Lemma removeAndShift_step_compacts (inst : EmitterInstance) (name : string)
    (v : View) (e : Emitter) (g : THREE.BufferAttribute) :
  geometry_attributes e !! name = Some g →
  0 ≤ start_of inst name →
  start_of inst name + Z.of_nat (v_length v) ≤ Z.of_nat (length (THREE.array g)) →
  removeAndShift_step inst name v e
  = Normal (store_attribute e name (compacted_attribute inst name v g)).
Proof.
  intros Hg Hstart Hend. unfold removeAndShift_step. rewrite Hg.
  unfold compacted_attribute, start_of in *.
  set (start := default 0 (attributeIndices inst !! name)) in *.
  assert (fst (TypedArray.subarray (Z.of_nat (length (THREE.array g)))
                 (start + Z.of_nat (v_length v))
                 (Z.of_nat (length (THREE.array g))))
          = start + Z.of_nat (v_length v)) as ->.
  { unfold TypedArray.subarray, TypedArray.relative. simpl.
    destruct (Z.ltb_spec (start + Z.of_nat (v_length v)) 0); lia. }
  unfold TypedArray.set. rewrite length_drop.
  rewrite bool_decide_false by lia.
  unfold store_attribute. do 4 f_equal.
  replace (start - (start + Z.of_nat (v_length v))) with (- Z.of_nat (v_length v)) by lia.
  replace (Z.to_nat (start + Z.of_nat (v_length v)))
    with (Z.to_nat start + v_length v)%nat by lia.
  f_equal. apply shift_then_clear. lia.
Qed.

Lemma removeAndShiftAttributes_compacts (e : Emitter) (inst : EmitterInstance) :
  ranges_in_bounds e inst →
  ∃ e', removeAndShiftAttributes e inst = Normal e' ∧
        set_geometry_attributes e (geometry_attributes e') = e' ∧
        ∀ name, geometry_attributes e' !! name
                = compacted_lookup inst (attributes inst) (geometry_attributes e) name.
Proof.
  unfold ranges_in_bounds, removeAndShiftAttributes.
  generalize (attributes inst) as views. intros views.
  apply (map_fold_weak_ind
    (λ (r : completion Emitter) (m : gmap string View),
       (∀ name v g, m !! name = Some v → geometry_attributes e !! name = Some g →
          0 ≤ start_of inst name ∧
          start_of inst name + Z.of_nat (v_length v)
            ≤ Z.of_nat (length (THREE.array g))) →
       ∃ e', r = Normal e' ∧
             set_geometry_attributes e (geometry_attributes e') = e' ∧
             ∀ name, geometry_attributes e' !! name
                     = compacted_lookup inst m (geometry_attributes e) name)).
  - intros _. exists e. split; [done|]. split; [by destruct e|].
    intros name. unfold compacted_lookup. rewrite lookup_empty.
    by destruct (geometry_attributes e !! name).
  - intros i v m r Hfresh IH Hb.
    destruct IH as (e1 & -> & Hscal & Hlook).
    { intros n v' g Hn. apply (Hb n v' g). rewrite lookup_insert_ne; [done|].
      intros ->. congruence. }
    pose proof (Hlook i) as Hi. unfold compacted_lookup in Hi. rewrite Hfresh in Hi.
    assert (geometry_attributes e1 !! i = geometry_attributes e !! i) as Hi'
      by (rewrite Hi; by destruct (geometry_attributes e !! i)).
    clear Hi.
    destruct (geometry_attributes e !! i) as [g|] eqn:Hg.
    + destruct (Hb i v g) as [Hs Hend]; [apply lookup_insert_eq|done|].
      rewrite (removeAndShift_step_compacts inst i v e1 g Hi' Hs Hend).
      eexists. split; [done|]. split.
      * rewrite <- Hscal. reflexivity.
      * intros name. unfold store_attribute. simpl.
        unfold compacted_lookup. destruct (decide (i = name)) as [<-|Hne].
        -- by rewrite !lookup_insert_eq, Hg.
        -- rewrite !lookup_insert_ne by done. apply Hlook.
    + unfold removeAndShift_step. rewrite Hi'.
      exists e1. split; [done|]. split; [done|].
      intros name. unfold compacted_lookup.
      destruct (decide (i = name)) as [<-|Hne].
      * by rewrite Hi', Hg.
      * rewrite lookup_insert_ne by done. apply Hlook.
Qed.

Lemma instanceRemoved_compacts_aux2 (e : Emitter) (r : ref) (inst : EmitterInstance) :
  r ∈ knownInstances e →
  ranges_in_bounds e inst →
  ∃ e', instanceRemoved e r inst = Normal e' ∧
        instanceCount e' = Z.max 0 (instanceCount e - particleAmount inst) ∧
        knownInstances e' = knownInstances e ∖ {[r]} ∧
        maxParticles e' = maxParticles e ∧
        ∀ name, geometry_attributes e' !! name
                = compacted_lookup inst (attributes inst) (geometry_attributes e) name.
Proof.
  intros Hr Hb. unfold instanceRemoved.
  destruct (decide (r ∈ knownInstances e)); [|done].
  set (e1 := set_instanceCount e _).
  destruct (removeAndShiftAttributes_compacts e1 inst Hb) as (e2 & -> & Hscal & Hlook).
  eexists. split; [done|]. rewrite <- Hscal. simpl. by repeat split.
Qed.

Lemma instanceRemoved_compacts_aux (e : Emitter) (r : ref) (inst : EmitterInstance) :
  r ∈ knownInstances e →
  ranges_in_bounds e inst →
  ∃ e', instanceRemoved e r inst = Normal e' ∧
        ∀ name, geometry_attributes e' !! name
                = compacted_lookup inst (attributes inst) (geometry_attributes e) name.
Proof.
  intros Hr Hb. unfold instanceRemoved.
  destruct (decide (r ∈ knownInstances e)); [|done].
  set (e1 := set_instanceCount e _).
  destruct (removeAndShiftAttributes_compacts e1 inst Hb) as (e2 & -> & Hscal & Hlook).
  eexists. split; [done|]. exact Hlook.
Qed.

(** X1. Removing a registered instance whose ranges lie within the
    buffers completes. The count drops by the amount of the instance (not
    below zero), the instance leaves the set, and every buffer for which
    the instance holds a view is compacted and flagged: what followed the
    range moves to its start and the tail is zero; a buffer for which the
    instance holds no view is untouched. *)
Theorem instanceRemoved_compacts (e : Emitter) (r : ref) (inst : EmitterInstance) :
  r ∈ knownInstances e →
  ranges_in_bounds e inst →
  ∃ e', instanceRemoved e r inst = Normal e' ∧
        instanceCount e' = Z.max 0 (instanceCount e - particleAmount inst) ∧
        knownInstances e' = knownInstances e ∖ {[r]} ∧
        maxParticles e' = maxParticles e ∧
        ∀ name, geometry_attributes e' !! name
                = compacted_lookup inst (attributes inst) (geometry_attributes e) name.
Proof.
  intros Hr Hb. unfold instanceRemoved.
  destruct (decide (r ∈ knownInstances e)); [|done].
  set (e1 := set_instanceCount e _).
  destruct (removeAndShiftAttributes_compacts e1 inst Hb) as (e2 & -> & Hscal & Hlook).
  eexists. split; [done|]. rewrite <- Hscal. simpl. by repeat split.
Qed.

Lemma compacted_before (arr : list Z) (start n j : nat) :
  (0 < n)%nat → (start + n ≤ length arr)%nat → (j < start)%nat →
  compacted arr start n !! j = arr !! j.
Proof.
  intros Hn Hfit Hj. unfold compacted. destruct n as [|n]; [lia|].
  rewrite lookup_app_l by (rewrite length_take; lia).
  by apply lookup_take_lt.
Qed.

Lemma compacted_moved (arr : list Z) (start n j : nat) :
  (0 < n)%nat → (start ≤ j)%nat → (j + n < length arr)%nat →
  compacted arr start n !! j = arr !! (j + n)%nat.
Proof.
  intros Hn Hj Hlen. unfold compacted. destruct n as [|n]; [lia|].
  rewrite lookup_app_r by (rewrite length_take; lia).
  rewrite length_take, Nat.min_l by lia.
  rewrite lookup_app_l by (rewrite length_drop; lia).
  rewrite lookup_drop. f_equal. lia.
Qed.

Lemma compacted_tail (arr : list Z) (start n j : nat) :
  (0 < n)%nat → (start + n ≤ length arr)%nat →
  (length arr - n ≤ j)%nat → (j < length arr)%nat →
  compacted arr start n !! j = Some 0.
Proof.
  intros Hn Hfit Hj Hlen. unfold compacted. destruct n as [|n]; [lia|].
  rewrite lookup_app_r by (rewrite length_take; lia).
  rewrite length_take, Nat.min_l by lia.
  rewrite lookup_app_r by (rewrite length_drop; lia).
  rewrite length_drop. apply lookup_replicate_2. lia.
Qed.

Lemma compacted_empty_range (arr : list Z) (start : nat) :
  compacted arr start 0 = replicate (length arr) 0.
Proof. reflexivity. Qed.

Lemma compacted_whole (arr : list Z) :
  compacted arr 0 (length arr) = replicate (length arr) 0.
Proof.
  unfold compacted. destruct (length arr) as [|n] eqn:Hlen; [done|].
  rewrite take_0, drop_ge by lia. done.
Qed.

(** X2. A removal keeps the data of the other instances and moves it with
    the buffer: when the removed view of [name] is not empty, a range
    that ends before its recorded start holds the same data afterwards,
    and the data of a range that begins after its end is found the length
    of the removed view further left. *)
Theorem instanceRemoved_keeps_data (e e' : Emitter) (r : ref)
    (inst : EmitterInstance) (name : string) (v u : View)
    (g : THREE.BufferAttribute) :
  r ∈ knownInstances e →
  ranges_in_bounds e inst →
  attributes inst !! name = Some v →
  geometry_attributes e !! name = Some g →
  (0 < v_length v)%nat →
  (v_begin u + v_length u ≤ length (THREE.array g))%nat →
  instanceRemoved e r inst = Normal e' →
  let start := Z.to_nat (start_of inst name) in
  ((v_begin u + v_length u ≤ start)%nat →
     read_view e' name u = read_view e name u) ∧
  ((start + v_length v ≤ v_begin u)%nat →
     read_view e' name (moved_left u (v_length v)) = read_view e name u).
Proof.
  intros Hr Hb Hv Hg Hn Hu Hrm start.
  destruct (instanceRemoved_compacts_aux e r inst Hr Hb) as (e2 & Hrm' & Hlook).
  rewrite Hrm in Hrm'. injection Hrm' as ->.
  specialize (Hlook name). unfold compacted_lookup in Hlook. rewrite Hg, Hv in Hlook.
  destruct (Hb name v g Hv Hg) as [Hs Hend].
  unfold read_view. rewrite Hlook, Hg. simpl. fold start.
  split; intros Hrange; apply list_eq; intros i.
  - destruct (decide (i < v_length u)%nat) as [Hi|Hi].
    + rewrite !lookup_take_lt, !lookup_drop by done.
      apply compacted_before; lia.
    + by rewrite !lookup_take_ge by lia.
  - destruct (decide (i < v_length u)%nat) as [Hi|Hi].
    + rewrite !lookup_take_lt, !lookup_drop by done.
      rewrite compacted_moved by lia. f_equal. lia.
    + by rewrite !lookup_take_ge by lia.
Qed.

(** X3. A removal zero-fills a whole buffer in two cases: when the view
    that the instance holds for it is empty, and when the instance holds
    the buffer as a whole with no recorded start, as it does for every
    attribute with fewer items than [maxParticles]. The buffer is
    flagged. *)
Theorem instanceRemoved_clears_buffer (e e' : Emitter) (r : ref)
    (inst : EmitterInstance) (name : string) (v : View)
    (g : THREE.BufferAttribute) :
  r ∈ knownInstances e →
  ranges_in_bounds e inst →
  attributes inst !! name = Some v →
  geometry_attributes e !! name = Some g →
  v_length v = 0%nat
  ∨ (attributeIndices inst !! name = None ∧ v_length v = length (THREE.array g)) →
  instanceRemoved e r inst = Normal e' →
  geometry_attributes e' !! name
  = Some (THREE.set_needsUpdate
            (THREE.set_array g (replicate (length (THREE.array g)) 0)) true).
Proof.
  intros Hr Hb Hv Hg Hcase Hrm.
  destruct (instanceRemoved_compacts_aux e r inst Hr Hb) as (e2 & Hrm' & Hlook).
  rewrite Hrm in Hrm'. injection Hrm' as ->.
  rewrite (Hlook name). unfold compacted_lookup. rewrite Hg, Hv.
  unfold compacted_attribute. do 3 f_equal.
  destruct Hcase as [->|[Hnone ->]]; [done|].
  unfold start_of. rewrite Hnone. simpl. apply compacted_whole.
Qed.

(** ** Creating and disposing *)

Lemma sub_view_fits (attr : THREE.BufferAttribute) (start end_ : Z) :
  0 ≤ start ≤ Z.of_nat (length (THREE.array attr)) →
  start + Z.of_nat (v_length (sub_view attr start end_))
    ≤ Z.of_nat (length (THREE.array attr)).
Proof.
  intros Hstart. unfold sub_view, TypedArray.subarray. simpl.
  pose proof (relative_range (Z.of_nat (length (THREE.array attr))) end_ ltac:(lia)).
  assert (TypedArray.relative (Z.of_nat (length (THREE.array attr))) start = start) as ->.
  { unfold TypedArray.relative. destruct (Z.ltb_spec start 0); lia. }
  lia.
Qed.

(** The instances that the constructor builds hold ranges within the
    buffers, when the active items end within every per-instance
    buffer. *)
Lemma constructed_ranges_in_bounds (e e' : Emitter) (n : Z) :
  geometry_attributes e' = geometry_attributes e →
  (∀ name g, geometry_attributes e !! name = Some g →
             maxParticles e ≤ THREE.count g →
             instanceCount e * THREE.itemSize g ≤ Z.of_nat (length (THREE.array g))) →
  ranges_in_bounds e' (calculateAttributeSubarrays e (plain_instance n)).
Proof.
  intros Hsame Hbuf name v g Hv Hg. rewrite Hsame in Hg.
  destruct (calculate_plain_lookup e n name g Hg) as (_ & Hv' & Hi).
  rewrite Hv' in Hv. injection Hv as <-. unfold start_of. rewrite Hi.
  specialize (Hbuf name g Hg).
  destruct (decide (maxParticles e ≤ THREE.count g)) as [Hper|Hshared]; simpl.
  - split; [lia|]. apply sub_view_fits. lia.
  - lia.
Qed.

Lemma compacted_zeros (len start n : nat) :
  (start + n ≤ len)%nat →
  compacted (replicate len 0) start n = replicate len 0.
Proof.
  intros Hfit. unfold compacted. rewrite length_replicate.
  destruct n as [|n]; [done|].
  rewrite take_replicate, drop_replicate, <- !replicate_add. f_equal. lia.
Qed.

(** X4. Round trip on a group with no active item and buffers that are
    all zero: creating an instance and disposing it at once completes and
    gives back the count 0, the same members and the same buffer
    contents; every buffer is flagged. *)
Theorem new_then_dispose_round_trip (w : World) (n : Z) :
  instanceCount (emitter w) = 0 →
  knownInstances (emitter w) ⊆ dom (heap w) →
  (∀ name g, geometry_attributes (emitter w) !! name = Some g →
             THREE.array g = replicate (length (THREE.array g)) 0) →
  let created := EmitterInstance_new w n in
  ∃ w', EmitterInstance_dispose (snd created) (fst created) = Normal w' ∧
        instanceCount (emitter w') = 0 ∧
        knownInstances (emitter w') = knownInstances (emitter w) ∧
        maxParticles (emitter w') = maxParticles (emitter w) ∧
        ∀ name, geometry_attributes (emitter w') !! name
                = (λ g, THREE.set_needsUpdate g true)
                    <$> geometry_attributes (emitter w) !! name.
Proof.
  intros Hcount Hknown Hzero created. subst created.
  unfold EmitterInstance_new, EmitterInstance_dispose. simpl.
  rewrite lookup_insert_eq.
  set (e := emitter w). set (r := fresh (dom (heap w))).
  set (inst := calculateAttributeSubarrays e (plain_instance n)).
  assert (r ∉ knownInstances e) as Hfresh.
  { intros Hin. apply (is_fresh (dom (heap w))). by apply Hknown. }
  assert (instanceAdded e r inst
          = set_instanceCount (set_knownInstances e ({[r]} ∪ knownInstances e))
              (Z.min (maxParticles e) (instanceCount e + particleAmount inst))) as Hadd.
  { unfold instanceAdded. by destruct (decide (r ∈ knownInstances e)). }
  rewrite Hadd. clear Hadd. set (e1 := set_instanceCount _ _).
  assert (ranges_in_bounds e1 inst) as Hb.
  { apply constructed_ranges_in_bounds; [done|].
    intros name g Hg _. fold e in Hcount. rewrite Hcount.
    change (0 * THREE.itemSize g) with 0. lia. }
  assert (r ∈ knownInstances e1) as Hr.
  { simpl. apply elem_of_union_l. by apply elem_of_singleton. }
  destruct (instanceRemoved_compacts_aux2 e1 r inst Hr Hb)
    as (e2 & -> & Hc & Hk & Hm & Hlook).
  eexists. split; [done|]. simpl.
  split; [|split; [|split; [done|]]].
  - rewrite Hc. simpl. fold e in Hcount. rewrite Hcount. lia.
  - rewrite Hk. simpl.
    apply set_eq. intros x. rewrite elem_of_difference, elem_of_union, elem_of_singleton.
    split; [tauto|]. intros Hx. split; [tauto|]. by intros ->.
  - intros name. rewrite (Hlook name). unfold compacted_lookup. simpl.
    destruct (geometry_attributes e !! name) as [g|] eqn:Hg; [|done].
    destruct (calculate_plain_lookup e n name g Hg) as (_ & Hv & _).
    fold inst in Hv.
    match type of Hv with _ = Some ?view => set (v := view) in * end.
    rewrite Hv. f_equal.
    destruct (Hb name v g Hv Hg) as [Hs Hend].
    unfold compacted_attribute.
    match goal with
    | |- context [compacted (THREE.array g) ?s ?l] =>
        assert (compacted (THREE.array g) s l = THREE.array g) as ->
          by (rewrite (Hzero name g Hg); apply compacted_zeros; lia)
    end.
    by destruct g.
Qed.

(** ** Computing the views again *)

Lemma EmitterInstance_eq (i1 i2 : EmitterInstance) :
  particleAmount i1 = particleAmount i2 →
  (∀ name, attributes i1 !! name = attributes i2 !! name) →
  (∀ name, attributeIndices i1 !! name = attributeIndices i2 !! name) →
  i1 = i2.
Proof.
  destruct i1 as [p1 a1 x1], i2 as [p2 a2 x2]. simpl.
  intros -> Ha Hx. f_equal; by apply map_eq.
Qed.

(** X5. Computing the views of an instance a second time changes nothing,
    also when the active count has changed in between: a recorded start
    is kept, so the views stay where they were first computed. *)
Theorem calculateAttributeSubarrays_again (e e' : Emitter) (inst0 : EmitterInstance) :
  geometry_attributes e' = geometry_attributes e →
  maxParticles e' = maxParticles e →
  calculateAttributeSubarrays e' (calculateAttributeSubarrays e inst0)
  = calculateAttributeSubarrays e inst0.
Proof.
  intros Hattrs Hmax.
  set (inst1 := calculateAttributeSubarrays e inst0).
  assert (∀ name,
            particleAmount inst1 = particleAmount inst0 ∧
            attributes inst1 !! name
            = match geometry_attributes e !! name with
              | None => attributes inst0 !! name
              | Some attr =>
                  if decide (maxParticles e ≤ THREE.count attr)
                  then Some (sub_view attr (recorded_start e inst0 name attr)
                                           (recorded_end e inst0 name attr))
                  else Some (default (whole_view attr) (attributes inst0 !! name))
              end ∧
            attributeIndices inst1 !! name
            = match geometry_attributes e !! name with
              | None => attributeIndices inst0 !! name
              | Some attr =>
                  if decide (maxParticles e ≤ THREE.count attr)
                  then Some (recorded_start e inst0 name attr)
                  else attributeIndices inst0 !! name
              end) as H1.
  { intros name. apply (calculate_fold_lookup e inst0 (geometry_attributes e) name). }
  apply EmitterInstance_eq.
  - by destruct (calculate_fold_lookup e' inst1 (geometry_attributes e') "") as (Hp & _).
  - intros name.
    destruct (calculate_fold_lookup e' inst1 (geometry_attributes e') name)
      as (_ & Hv & _).
    unfold calculateAttributeSubarrays. rewrite Hv, Hattrs, Hmax.
    destruct (H1 name) as (Hp & Hv1 & Hi1).
    destruct (geometry_attributes e !! name) as [attr|]; [|done].
    destruct (decide (maxParticles e ≤ THREE.count attr)).
    + rewrite Hv1. f_equal. unfold recorded_end, recorded_start.
      by rewrite Hi1, Hp.
    + by rewrite Hv1.
  - intros name.
    destruct (calculate_fold_lookup e' inst1 (geometry_attributes e') name)
      as (_ & _ & Hi).
    unfold calculateAttributeSubarrays. rewrite Hi, Hattrs, Hmax.
    destruct (H1 name) as (Hp & Hv1 & Hi1).
    destruct (geometry_attributes e !! name) as [attr|]; [|done].
    destruct (decide (maxParticles e ≤ THREE.count attr)); [|done].
    unfold recorded_start. by rewrite Hi1.
Qed.

(** ** Bounds on the active count *)

Lemma removeAndShift_step_scalars (inst : EmitterInstance) (name : string)
    (v : View) (e : Emitter) :
  let e' := outcome (removeAndShift_step inst name v e) in
  instanceCount e' = instanceCount e ∧
  maxParticles e' = maxParticles e ∧
  knownInstances e' = knownInstances e.
Proof.
  unfold removeAndShift_step.
  destruct (geometry_attributes e !! name) as [g|]; [|done].
  by destruct (TypedArray.set _ _ _).
Qed.

Lemma removeAndShiftAttributes_scalars (e : Emitter) (inst : EmitterInstance) :
  let e' := outcome (removeAndShiftAttributes e inst) in
  instanceCount e' = instanceCount e ∧
  maxParticles e' = maxParticles e ∧
  knownInstances e' = knownInstances e.
Proof.
  unfold removeAndShiftAttributes.
  apply (map_fold_weak_ind
    (λ (r : completion Emitter) (_ : gmap string View),
       instanceCount (outcome r) = instanceCount e ∧
       maxParticles (outcome r) = maxParticles e ∧
       knownInstances (outcome r) = knownInstances e)); [done|].
  intros name v m r _ (Hc & Hm & Hk). destruct r as [e1|e1]; [|done].
  destruct (removeAndShift_step_scalars inst name v e1) as (Hc' & Hm' & Hk').
  simpl in *. split; [congruence|]. split; congruence.
Qed.

Section ActiveCountBounds.

Variable obj : ref → EmitterInstance.
Hypothesis amount_nonneg : ∀ r, 0 ≤ particleAmount (obj r).

Lemma perform_bounds (e : Emitter) (c : call) :
  0 ≤ instanceCount e ≤ maxParticles e →
  instanceCount e ≤ registered_total obj (knownInstances e) →
  let e' := outcome (perform obj e c) in
  maxParticles e' = maxParticles e ∧
  0 ≤ instanceCount e' ≤ maxParticles e' ∧
  instanceCount e' ≤ registered_total obj (knownInstances e').
Proof.
  intros Hrange Hsum. pose proof (amount_nonneg) as Hnn.
  destruct c as [r|r]; simpl.
  - unfold instanceAdded.
    destruct (decide (r ∈ knownInstances e)) as [Hr|Hr]; [done|]. simpl.
    rewrite registered_total_insert by done.
    specialize (Hnn r). lia.
  - unfold instanceRemoved.
    destruct (decide (r ∈ knownInstances e)) as [Hr|Hr]; [|done].
    set (e1 := set_instanceCount e _).
    destruct (removeAndShiftAttributes_scalars e1 (obj r)) as (Hc & Hm & Hk).
    pose proof (registered_total_nonneg obj amount_nonneg (knownInstances e ∖ {[r]}))
      as Htot.
    rewrite registered_total_delete in Htot by done.
    specialize (Hnn r).
    destruct (removeAndShiftAttributes e1 (obj r)) as [e2|e2]; simpl in *.
    + rewrite Hc, Hm, Hk. rewrite registered_total_delete by done. lia.
    + rewrite Hc, Hm, Hk. lia.
Qed.

(** X6. With particle amounts that are not negative, every sequence of
    registrations and removals, however it ends, leaves the count between
    0 and [min (maxParticles, sum over the registered instances)], when
    it started so. *)
Theorem instanceCount_bounds (cs : list call) (e : Emitter) :
  0 ≤ instanceCount e ≤ maxParticles e →
  instanceCount e ≤ registered_total obj (knownInstances e) →
  let e' := outcome (run obj e cs) in
  0 ≤ instanceCount e'
    ≤ Z.min (maxParticles e') (registered_total obj (knownInstances e')).
Proof.
  revert e. induction cs as [|c cs IH]; intros e Hrange Hsum; simpl.
  - lia.
  - destruct (perform_bounds e c Hrange Hsum) as (Hm & Hr & Hs).
    destruct (perform obj e c) as [e1|e1]; simpl in *.
    + by apply IH.
    + lia.
Qed.

End ActiveCountBounds.

(** ** Instances created one after the other *)

(** X7. Two instances created in a row: for a per-instance attribute of
    item size [w], the second one starts [min (maxParticles, T + n1) * w]
    elements into the buffer, where [T] is the count before and [n1] the
    amount of the first. Below the bound that is where the range asked
    for by the first one ends; above it the second one starts at
    [maxParticles * w]. *)
Theorem consecutive_instances (w : World) (n1 n2 : Z) (name : string)
    (attr : THREE.BufferAttribute) :
  geometry_attributes (emitter w) !! name = Some attr →
  maxParticles (emitter w) ≤ THREE.count attr →
  knownInstances (emitter w) ⊆ dom (heap w) →
  let T := instanceCount (emitter w) in
  let width := THREE.itemSize attr in
  0 ≤ T ≤ maxParticles (emitter w) → 0 ≤ n1 → 0 ≤ width →
  let first := EmitterInstance_new w n1 in
  let second := EmitterInstance_new (snd first) n2 in
  ∃ x y,
    fst first ≠ fst second ∧
    heap (snd second) !! fst first = Some x ∧
    heap (snd second) !! fst second = Some y ∧
    instanceCount (emitter (snd first)) = Z.min (maxParticles (emitter w)) (T + n1) ∧
    start_of x name = T * width ∧
    start_of y name = Z.min (maxParticles (emitter w)) (T + n1) * width ∧
    (T + n1 ≤ maxParticles (emitter w) →
       start_of y name = start_of x name + n1 * width).
Proof.
  intros Hattr Hper Hknown T width HT Hn1 Hw first second.
  set (e := emitter w) in *.
  set (r1 := fresh (dom (heap w))).
  set (x := calculateAttributeSubarrays e (plain_instance n1)).
  assert (r1 ∉ knownInstances e) as Hfresh.
  { intros Hin. apply (is_fresh (dom (heap w))). by apply Hknown. }
  assert (snd first
          = {| emitter :=
                 set_instanceCount (set_knownInstances e ({[r1]} ∪ knownInstances e))
                   (Z.min (maxParticles e) (T + particleAmount x));
               heap := <[r1 := x]> (heap w) |}) as Hfirst.
  { subst first. unfold EmitterInstance_new. simpl. fold e r1 x.
    unfold instanceAdded. by destruct (decide (r1 ∈ knownInstances e)). }
  destruct (calculate_plain_lookup e n1 name attr Hattr) as (Hpx & _ & Hix).
  fold x in Hpx, Hix. rewrite Hpx in Hfirst.
  destruct (decide (maxParticles e ≤ THREE.count attr)); [|lia].
  set (e1 := emitter (snd first)).
  assert (geometry_attributes e1 !! name = Some attr) as Hattr1
    by (subst e1; by rewrite Hfirst).
  assert (instanceCount e1 = Z.min (maxParticles e) (T + n1)) as Hcount1
    by (subst e1; by rewrite Hfirst).
  assert (maxParticles e1 = maxParticles e) as Hmax1
    by (subst e1; by rewrite Hfirst).
  destruct (calculate_plain_lookup e1 n2 name attr Hattr1) as (_ & _ & Hiy).
  rewrite Hmax1, Hcount1 in Hiy.
  destruct (decide (maxParticles e ≤ THREE.count attr)); [|lia].
  assert (fst first = r1) as Hr1 by reflexivity.
  assert (fst second = fresh (dom (<[r1 := x]> (heap w)))) as Hr2.
  { subst second. rewrite Hfirst. reflexivity. }
  assert (heap (snd second)
          = <[fst second := calculateAttributeSubarrays e1 (plain_instance n2)]>
              (<[r1 := x]> (heap w))) as Hheap.
  { subst second e1. rewrite Hfirst. reflexivity. }
  assert (r1 ≠ fst second) as Hne.
  { rewrite Hr2. intros Heq. apply (is_fresh (dom (<[r1 := x]> (heap w)))).
    rewrite <- Heq. rewrite dom_insert_L. apply elem_of_union_l.
    by apply elem_of_singleton. }
  exists x, (calculateAttributeSubarrays e1 (plain_instance n2)).
  rewrite Hr1, Hheap.
  split; [done|]. split.
  { rewrite lookup_insert_ne by (intros Heq; apply Hne; by rewrite <- Heq).
    apply lookup_insert_eq. }
  split; [apply lookup_insert_eq|].
  split; [done|].
  unfold start_of. rewrite Hix, Hiy. simpl. fold T width.
  split; [nia|]. split; [nia|]. intros Hle. nia.
Qed.

(** ** Filling stays inside the view *)

Lemma same_outside_refl v g : same_outside v g g.
Proof. by repeat split. Qed.

Lemma same_outside_trans v g1 g2 g3 :
  same_outside v g1 g2 → same_outside v g2 g3 → same_outside v g1 g3.
Proof.
  intros (Hl & Hi & Hc & Hk & Ho) (Hl' & Hi' & Hc' & Hk' & Ho').
  split; [congruence|]. split; [congruence|]. split; [congruence|].
  split; [congruence|]. intros j Hj. by rewrite Ho', Ho.
Qed.

Lemma touch_same_outside v g : same_outside v g (touch v g).
Proof. unfold touch. destruct (v_proxy v); by repeat split. Qed.

Lemma data_set_same_outside (v : View) (g : THREE.BufferAttribute)
    (src : list Z) (i : Z) :
  (v_begin v + v_length v ≤ length (THREE.array g))%nat →
  same_outside v g (outcome (data_set v g src i)).
Proof.
  intros Hview. unfold data_set. case_bool_decide as Hfit; simpl.
  - apply touch_same_outside.
  - apply (same_outside_trans v g (touch v g)); [apply touch_same_outside|].
    assert (THREE.array (touch v g) = THREE.array g) as Harr
      by (unfold touch; by destruct (v_proxy v)).
    split; [|split; [done|split; [done|split; [done|]]]]; simpl.
    + apply write_at_length. rewrite Harr. lia.
    + intros j Hj. apply write_at_outside; rewrite ?Harr; lia.
Qed.

Lemma data_fill_same_outside (v : View) (g : THREE.BufferAttribute) (x : Z) :
  (v_begin v + v_length v ≤ length (THREE.array g))%nat →
  same_outside v g (data_fill v g x).
Proof.
  intros Hview. unfold data_fill.
  apply (same_outside_trans v g (touch v g)); [apply touch_same_outside|].
  assert (THREE.array (touch v g) = THREE.array g) as Harr
    by (unfold touch; by destruct (v_proxy v)).
  split; [|split; [done|split; [done|split; [done|]]]]; simpl.
  - apply write_at_length. rewrite Harr, length_replicate. lia.
  - intros j Hj. apply write_at_outside; rewrite ?Harr, length_replicate; lia.
Qed.

Lemma same_outside_view v g g' :
  same_outside v g g' →
  (v_begin v + v_length v ≤ length (THREE.array g))%nat →
  (v_begin v + v_length v ≤ length (THREE.array g'))%nat.
Proof. intros (Hl & _) Hview. lia. Qed.

Lemma fill_array_loop_same_outside (v : View) (value : list Z) (fuel : nat) :
  ∀ i g c,
    (v_begin v + v_length v ≤ length (THREE.array g))%nat →
    fill_array_loop fuel v value i g = Some c →
    same_outside v g (outcome c).
Proof.
  induction fuel as [|fuel IH]; intros i g c Hview; simpl.
  - case_bool_decide; [done|]. intros [= <-]. apply same_outside_refl.
  - case_bool_decide; [|intros [= <-]; apply same_outside_refl].
    pose proof (data_set_same_outside v g value i Hview) as Hset.
    destruct (data_set v g value i) as [g'|g']; simpl in Hset.
    + intros Hloop. apply (same_outside_trans v g g'); [done|].
      apply (IH _ _ _ (same_outside_view v g g' Hset Hview) Hloop).
    + by intros [= <-].
Qed.

Lemma fill_each_loop_same_outside (v : View) (value : Z → Z) (fuel : nat) :
  ∀ i g c,
    (v_begin v + v_length v ≤ length (THREE.array g))%nat →
    fill_each_loop fuel v value i g = Some c →
    same_outside v g (outcome c).
Proof.
  induction fuel as [|fuel IH]; intros i g c Hview; simpl.
  - case_bool_decide; [done|]. intros [= <-]. apply same_outside_refl.
  - case_bool_decide; [|intros [= <-]; apply same_outside_refl].
    pose proof (data_set_same_outside v g [value i] i Hview) as Hset.
    destruct (data_set v g [value i] i) as [g'|g']; simpl in Hset.
    + intros Hloop. apply (same_outside_trans v g g'); [done|].
      apply (IH _ _ _ (same_outside_view v g g' Hset Hview) Hloop).
    + by intros [= <-].
Qed.

(** X8. A fill through a view that lies within its buffer, whatever the
    value and however the call ends, changes nothing but the elements
    inside the view and the flag of that one attribute: the length of the
    buffer, its elements outside the view, the other attributes, the
    count and the members are as before. *)
Theorem EmitterInstance_fillAttribute_stays_inside (fuel : nat) (e : Emitter)
    (inst : EmitterInstance) (name : string) (data : View)
    (g : THREE.BufferAttribute) (value : FillValue Z) (c : completion Emitter) :
  attributes inst !! name = Some data →
  geometry_attributes e !! name = Some g →
  (v_begin data + v_length data ≤ length (THREE.array g))%nat →
  EmitterInstance_fillAttribute fuel e inst name value = Some c →
  ∃ g', outcome c = store_attribute e name g' ∧ same_outside data g g'.
Proof.
  intros Hdata Hg Hview. unfold EmitterInstance_fillAttribute. rewrite Hdata, Hg.
  destruct value as [x|vs|f].
  - intros [= <-]. eexists. split; [done|]. by apply data_fill_same_outside.
  - destruct (fill_array_loop fuel data vs 0 g) as [c'|] eqn:Hloop; [|done].
    intros [= <-]. exists (outcome c'). split; [by destruct c'|].
    by eapply fill_array_loop_same_outside.
  - destruct (fill_each_loop fuel data f 0 g) as [c'|] eqn:Hloop; [|done].
    intros [= <-]. exists (outcome c'). split; [by destruct c'|].
    by eapply fill_each_loop_same_outside.
Qed.

(** ** What a fill writes *)

Lemma read_write_at (arr : list Z) (pos : nat) (src : list Z) :
  (pos + length src ≤ length arr)%nat →
  take (length src) (drop pos (TypedArray.write_at arr pos src)) = src.
Proof.
  intros Hfit. unfold TypedArray.write_at.
  rewrite drop_app_length' by (rewrite length_take; lia).
  apply take_app_length.
Qed.

Lemma write_at_all (arr src : list Z) :
  length src = length arr → TypedArray.write_at arr 0 src = src.
Proof.
  intros Hlen. unfold TypedArray.write_at. simpl.
  rewrite drop_ge by lia. apply app_nil_r.
Qed.

Lemma written_from_nothing (v : View) (g : THREE.BufferAttribute) (i : Z) :
  written_from v g i [] false = g.
Proof.
  unfold written_from. rewrite write_at_nil, andb_false_r, orb_false_r.
  by destruct g.
Qed.

Lemma written_from_touch (v : View) (g : THREE.BufferAttribute) (i : Z) :
  written_from v g i [] true = touch v g.
Proof.
  unfold written_from, touch. rewrite write_at_nil, andb_true_r.
  destruct g as [arr sz cnt dirty kind], (v_proxy v); simpl;
    rewrite ?orb_true_r, ?orb_false_r; done.
Qed.

Lemma written_from_step (v : View) (g : THREE.BufferAttribute) (i : Z)
    (first rest : list Z) (more : bool) :
  0 ≤ i →
  (v_begin v + Z.to_nat i + length first ≤ length (THREE.array g))%nat →
  written_from v
    (THREE.set_array (touch v g)
       (TypedArray.write_at (THREE.array (touch v g)) (v_begin v + Z.to_nat i) first))
    (i + Z.of_nat (length first)) rest more
  = written_from v g i (first ++ rest) true.
Proof.
  intros Hi Hfit. unfold written_from, touch.
  replace (v_begin v + Z.to_nat (i + Z.of_nat (length first)))%nat
    with ((v_begin v + Z.to_nat i) + length first)%nat by lia.
  pose proof (write_at_app (THREE.array g) (v_begin v + Z.to_nat i) first rest Hfit)
    as Happ.
  destruct g as [arr sz cnt dirty kind], (v_proxy v), more; simpl in *;
    rewrite Happ, ?orb_true_r, ?orb_false_r; done.
Qed.

Lemma fill_each_loop_maps (v : View) (value : Z → Z) (rem : nat) :
  ∀ (fuel : nat) (i : Z) (g : THREE.BufferAttribute),
    (v_begin v + v_length v ≤ length (THREE.array g))%nat →
    0 ≤ i →
    Z.of_nat (v_length v) - i = Z.of_nat rem →
    (rem < fuel)%nat →
    fill_each_loop fuel v value i g
    = Some (Normal (written_from v g i (map value (indices_from i rem))
                      (bool_decide (0 < rem)%nat))).
Proof.
  induction rem as [|rem IH]; intros fuel i g Hview Hi Hrem Hfuel;
    (destruct fuel as [|fuel]; [lia|]); simpl fill_each_loop.
  - rewrite bool_decide_false by lia. simpl.
    by rewrite written_from_nothing.
  - rewrite bool_decide_true by lia.
    unfold data_set. rewrite bool_decide_false by (simpl; lia).
    assert (THREE.array (touch v g) = THREE.array g) as Htouch
      by (unfold touch; by destruct (v_proxy v)).
    rewrite (IH fuel (i + 1)); [|simpl; rewrite Htouch, write_at_length; simpl; lia|lia..].
    do 2 f_equal.
    change (i + 1) with (i + Z.of_nat (length [value i])).
    rewrite written_from_step by (simpl; lia).
    by rewrite bool_decide_true by lia.
Qed.

Lemma generated_length (value : Z → Generated) (k : nat) (s : Z) (q : nat) :
  (∀ i, length (as_array (value i)) = k) →
  length (generated value s q) = (q * k)%nat.
Proof.
  intros Hk. unfold generated. revert s. induction q as [|q IH]; intros s; [done|].
  simpl. rewrite length_app, Hk, IH. lia.
Qed.

Lemma fill_generator_loop_chunks (v : View) (value : Z → Generated) (k q : nat) :
  ∀ (fuel : nat) (s d rest : Z) (g : THREE.BufferAttribute),
    (∀ i, length (as_array (value i)) = k) →
    (0 < k)%nat →
    (v_begin v + v_length v ≤ length (THREE.array g))%nat →
    0 ≤ d →
    Z.of_nat (v_length v) - d = Z.of_nat q * Z.of_nat k + rest →
    0 ≤ rest < Z.of_nat k →
    (q < fuel)%nat →
    fill_generator_loop fuel v value s d g
    = Some ((if bool_decide (rest = 0) then Normal else RangeError)
              (written_from v g d (generated value s q)
                 (bool_decide (d < Z.of_nat (v_length v))))).
Proof.
  induction q as [|q IH]; intros fuel s d rest g Hk Hpos Hview Hd Hsplit Hrest Hfuel;
    (destruct fuel as [|fuel]; [lia|]); simpl fill_generator_loop.
  - unfold generated. simpl. case_bool_decide as Hlt.
    + rewrite bool_decide_false by lia.
      unfold data_set. rewrite Hk. rewrite bool_decide_true by lia.
      by rewrite written_from_touch.
    + rewrite bool_decide_true by lia. by rewrite written_from_nothing.
  - assert (Z.of_nat k + d ≤ Z.of_nat (v_length v)) as Hstep by nia.
    rewrite bool_decide_true by lia.
    unfold data_set. rewrite Hk. rewrite bool_decide_false by lia.
    assert (THREE.array (touch v g) = THREE.array g) as Htouch
      by (unfold touch; by destruct (v_proxy v)).
    rewrite (IH fuel (s + 1) (d + Z.of_nat k) rest); try done; try lia.
    + do 2 f_equal.
      rewrite <- (Hk s) at 1. rewrite written_from_step by (rewrite ?Hk; lia).
      reflexivity.
    + simpl. rewrite Htouch, write_at_length; [done|]. rewrite Hk. lia.
Qed.

Lemma indices_from_length (i : Z) (n : nat) : length (indices_from i n) = n.
Proof. revert i. induction n as [|n IH]; intros i; simpl; [done|]. by rewrite IH. Qed.

Lemma read_view_store (e : Emitter) (name : string) (v : View)
    (g' : THREE.BufferAttribute) :
  read_view (store_attribute e name g') name v
  = take (v_length v) (drop (v_begin v) (THREE.array g')).
Proof. unfold read_view, store_attribute. simpl. by rewrite lookup_insert_eq. Qed.

(** X9. Filling with a number completes: through a view that lies within
    its buffer the view then reads that number at every index, and the
    attribute is flagged when the view is proxied; through the emitter
    the whole buffer holds that number and the attribute is flagged. *)
Theorem fillAttribute_number (fuel : nat) (e : Emitter) (inst : EmitterInstance)
    (name : string) (data : View) (g : THREE.BufferAttribute) (x : Z) :
  attributes inst !! name = Some data →
  geometry_attributes e !! name = Some g →
  (v_begin data + v_length data ≤ length (THREE.array g))%nat →
  (∃ e', EmitterInstance_fillAttribute fuel e inst name (VNumber x) = Some (Normal e') ∧
         read_view e' name data = replicate (v_length data) x ∧
         THREE.needsUpdate <$> geometry_attributes e' !! name
         = Some (THREE.needsUpdate g || v_proxy data)) ∧
  Emitter_fillAttribute fuel e name (VNumber x)
  = Some (Normal (store_attribute e name
                    (THREE.set_needsUpdate
                       (THREE.set_array g (replicate (length (THREE.array g)) x))
                       true))).
Proof.
  intros Hdata Hg Hview. split.
  - unfold EmitterInstance_fillAttribute. rewrite Hdata, Hg.
    eexists. split; [done|].
    assert (THREE.array (touch data g) = THREE.array g) as Htouch
      by (unfold touch; by destruct (v_proxy data)).
    split.
    + rewrite read_view_store. unfold data_fill. simpl. rewrite Htouch.
      rewrite <- (length_replicate (v_length data) x) at 1.
      apply read_write_at. rewrite length_replicate. lia.
    + unfold store_attribute. simpl. rewrite lookup_insert_eq. simpl.
      unfold touch. destruct (v_proxy data); simpl; by rewrite ?orb_true_r, ?orb_false_r.
  - unfold Emitter_fillAttribute. rewrite Hg. do 4 f_equal.
    unfold data_fill, touch. simpl.
    rewrite write_at_all by apply length_replicate. done.
Qed.

(** X10. Filling through an instance with a generator that is a function
    of the index, on a view of [L] items that lies within the buffer: the
    call completes without raising, the view then reads
    [value 0, ..., value (L - 1)], and the flag of the attribute is the
    flag before, or set when the view is proxied and not empty. *)
Theorem EmitterInstance_fillAttribute_generator (fuel : nat) (e : Emitter)
    (inst : EmitterInstance) (name : string) (data : View)
    (g : THREE.BufferAttribute) (value : Z → Z) :
  attributes inst !! name = Some data →
  geometry_attributes e !! name = Some g →
  (v_begin data + v_length data ≤ length (THREE.array g))%nat →
  (v_length data < fuel)%nat →
  ∃ e', EmitterInstance_fillAttribute fuel e inst name (VFunction value)
        = Some (Normal e') ∧
        read_view e' name data = map value (indices_from 0 (v_length data)) ∧
        THREE.needsUpdate <$> geometry_attributes e' !! name
        = Some (THREE.needsUpdate g
                || (v_proxy data && bool_decide (0 < v_length data)%nat)).
Proof.
  intros Hdata Hg Hview Hfuel.
  unfold EmitterInstance_fillAttribute. rewrite Hdata, Hg.
  rewrite (fill_each_loop_maps data value (v_length data) fuel 0 g) by (done || lia).
  simpl. eexists. split; [done|]. split.
  - rewrite read_view_store. unfold written_from. simpl. rewrite Nat.add_0_r.
    assert (length (map value (indices_from 0 (v_length data))) = v_length data) as Hlen.
    { by rewrite length_map, indices_from_length. }
    rewrite <- Hlen at 1. apply read_write_at. lia.
  - unfold store_attribute. simpl. by rewrite lookup_insert_eq.
Qed.

(** X11. Filling through the emitter with a generator whose results all
    have [k >= 1] components: the results for the indices 0, 1, ... are
    written one after the other, as many as fit whole. When [k] divides
    the length of the buffer the call completes, the buffer holds exactly
    these results and the attribute is flagged; when it does not, the
    call raises a [RangeError], the rest of the buffer is as it was and
    the flag is not set. *)
Theorem Emitter_fillAttribute_generator (fuel : nat) (e : Emitter) (name : string)
    (g : THREE.BufferAttribute) (value : Z → Generated) (k : nat) :
  geometry_attributes e !! name = Some g →
  (∀ i, length (as_array (value i)) = k) →
  (0 < k)%nat →
  (length (THREE.array g) < fuel)%nat →
  let L := Z.of_nat (length (THREE.array g)) in
  let q := Z.to_nat (L / Z.of_nat k) in
  let written := generated value 0 q ++ drop (q * k) (THREE.array g) in
  Emitter_fillAttribute fuel e name (VFunction value)
  = Some (if bool_decide (L mod Z.of_nat k = 0)
          then Normal (store_attribute e name
                         (THREE.set_needsUpdate (THREE.set_array g written) true))
          else RangeError (store_attribute e name (THREE.set_array g written))) ∧
  length written = length (THREE.array g) ∧
  (L mod Z.of_nat k = 0 → written = generated value 0 q).
Proof.
  intros Hg Hk Hpos Hfuel L q written.
  pose proof (Z.div_mod L (Z.of_nat k) ltac:(lia)) as Hdm.
  pose proof (Z.mod_pos_bound L (Z.of_nat k) ltac:(lia)) as Hmod.
  assert (0 ≤ L / Z.of_nat k) as Hq by (apply Z.div_pos; lia).
  assert (q * k ≤ length (THREE.array g))%nat as Hqk by (subst q L; nia).
  pose proof (generated_length value k 0 q Hk) as Hgen.
  split; [|split].
  - unfold Emitter_fillAttribute. rewrite Hg.
    rewrite (fill_generator_loop_chunks (whole_view g) value k q fuel 0 0
               (L mod Z.of_nat k) g); try done; try (simpl; lia).
    + assert (written_from (whole_view g) g 0 (generated value 0 q)
                (bool_decide (0 < Z.of_nat (v_length (whole_view g))))
              = THREE.set_array g written) as ->.
      { unfold written_from, TypedArray.write_at. simpl. rewrite Hgen.
        subst written. rewrite orb_false_r. by destruct g. }
      simpl. by destruct (bool_decide (L mod Z.of_nat k = 0)).
    + assert (q ≤ q * k)%nat by nia. lia.
  - subst written. rewrite length_app, length_drop, Hgen. lia.
  - intros Hz. subst written. rewrite drop_ge, app_nil_r; [done|].
    subst q L. nia.
Qed.

(** ** Ticks and frame requests *)

Lemma update_frame (e : Emitter) (now : Z) :
  autoUpdate (update e now) = autoUpdate e ∧
  maxParticles (update e now) = maxParticles e ∧
  knownInstances (update e now) = knownInstances e ∧
  instanceCount (update e now) = instanceCount e ∧
  geometry_attributes (update e now) = geometry_attributes e.
Proof. done. Qed.

(** X13. Ticks touch the clock only: the bound, the members, the count
    and the buffers are as before. Each tick requests one frame when the
    emitter updates automatically and none otherwise; [setAutoUpdate]
    requests one frame when it switches the mode on, and a request made
    earlier is not taken back when it switches the mode off. *)
Theorem ticks_requests (e : Emitter) (auto : bool) (clock : list Z) :
  (maxParticles (ticks e clock) = maxParticles e ∧
   knownInstances (ticks e clock) = knownInstances e ∧
   instanceCount (ticks e clock) = instanceCount e ∧
   geometry_attributes (ticks e clock) = geometry_attributes e ∧
   autoUpdate (ticks e clock) = autoUpdate e) ∧
  pendingFrames (ticks e clock)
  = (pendingFrames e + if autoUpdate e then length clock else 0)%nat ∧
  pendingFrames (ticks (setAutoUpdate e auto) clock)
  = (pendingFrames e + if auto then S (length clock) else 0)%nat.
Proof.
  assert (∀ e0, (maxParticles (ticks e0 clock) = maxParticles e0 ∧
                 knownInstances (ticks e0 clock) = knownInstances e0 ∧
                 instanceCount (ticks e0 clock) = instanceCount e0 ∧
                 geometry_attributes (ticks e0 clock) = geometry_attributes e0 ∧
                 autoUpdate (ticks e0 clock) = autoUpdate e0) ∧
                pendingFrames (ticks e0 clock)
                = (pendingFrames e0 + if autoUpdate e0 then length clock else 0)%nat)
    as Hgen.
  { induction clock as [|now clock IH]; intros e0.
    - simpl. split; [done|]. destruct (autoUpdate e0); lia.
    - change (ticks e0 (now :: clock)) with (ticks (update e0 now) clock).
      destruct (IH (update e0 now)) as ((Hm & Hk & Hc & Hg & Ha) & Hp).
      split; [by repeat split|]. rewrite Hp. simpl.
      destruct (autoUpdate e0); simpl; lia. }
  split; [apply Hgen|]. split; [apply Hgen|].
  destruct (Hgen (setAutoUpdate e auto)) as (_ & ->). simpl.
  destruct auto; lia.
Qed.

(** ** Attributes set after construction *)



(** ** Membership along a sequence of calls *)

(** X15. After a sequence of registrations and removals that completes,
    the members are exactly the instances registered and not removed
    since, whatever their amounts and whether or not the count has
    saturated; the bound is unchanged. *)
Theorem run_members (obj : ref → EmitterInstance) (cs : list call) (e e' : Emitter) :
  run obj e cs = Normal e' →
  knownInstances e' = foldl members_after (knownInstances e) cs ∧
  maxParticles e' = maxParticles e.
Proof.
  revert e. induction cs as [|c cs IH]; intros e; simpl.
  - by intros [= <-].
  - destruct (perform obj e c) as [e1|e1] eqn:Hperform; [|done].
    intros Hrun. destruct (IH e1 Hrun) as [-> ->].
    assert (knownInstances e1 = members_after (knownInstances e) c ∧
            maxParticles e1 = maxParticles e) as [-> ->]; [|done].
    destruct c as [r|r]; simpl in Hperform.
    + injection Hperform as <-. unfold instanceAdded.
      destruct (decide (r ∈ knownInstances e)) as [Hr|Hr]; [|done].
      split; [|done]. simpl. symmetry.
      by apply subseteq_union_1_L, singleton_subseteq_l.
    + unfold instanceRemoved in Hperform.
      destruct (decide (r ∈ knownInstances e)) as [Hr|Hr].
      * set (e0 := set_instanceCount e _) in Hperform.
        destruct (removeAndShiftAttributes_scalars e0 (obj r)) as (_ & Hm & Hk).
        destruct (removeAndShiftAttributes e0 (obj r)) as [e2|e2]; [|done].
        injection Hperform as <-. simpl in *. by rewrite Hk, Hm.
      * injection Hperform as <-. split; [|done]. simpl. symmetry.
        by apply difference_disjoint_L, disjoint_singleton_r.
Qed.

(** ** More on filling through the emitter *)

(** X16. [Emitter.fillAttribute] with a vector that is not empty writes
    the vector from the start of the buffer, once for every whole copy
    that fits. When its length divides the length of the buffer the call
    completes and the attribute is flagged; when it does not, the call
    raises a [RangeError], the rest of the buffer is as it was and the
    flag is not set. *)
Theorem Emitter_fillAttribute_vector_tiling (fuel : nat) (e : Emitter)
    (name : string) (g : THREE.BufferAttribute) (value : list Z) :
  geometry_attributes e !! name = Some g →
  value ≠ [] →
  (length (THREE.array g) < fuel)%nat →
  let L := Z.of_nat (length (THREE.array g)) in
  let k := Z.of_nat (length value) in
  let q := Z.to_nat (L / k) in
  let written := tile q value ++ drop (q * length value) (THREE.array g) in
  Emitter_fillAttribute fuel e name (VArray value)
  = Some (if bool_decide (L mod k = 0)
          then Normal (store_attribute e name
                         (THREE.set_needsUpdate (THREE.set_array g written) true))
          else RangeError (store_attribute e name (THREE.set_array g written))) ∧
  length written = length (THREE.array g) ∧
  (L mod k = 0 → written = tile q value).
Proof.
  intros Hg Hval Hfuel L k q written.
  assert (0 < k) as Hk by (subst k; destruct value; simpl; [done|lia]).
  pose proof (Z.div_mod L k ltac:(lia)) as Hdm.
  pose proof (Z.mod_pos_bound L k Hk) as Hmod.
  assert (0 ≤ L / k) as Hq by (apply Z.div_pos; lia).
  assert (q * length value ≤ length (THREE.array g))%nat as Hqk by (subst q L k; nia).
  split; [|split].
  - rewrite (Emitter_fillAttribute_vector fuel e name g value Hg Hval Hfuel).
    fold L k q.
    assert (tiled_from (whole_view g) g value 0 q = THREE.set_array g written) as ->.
    { unfold tiled_from, TypedArray.write_at. simpl. rewrite tile_length.
      subst written. rewrite orb_false_r. by destruct g. }
    done.
  - subst written. rewrite length_app, length_drop, tile_length. lia.
  - intros Hz. subst written. rewrite drop_ge, app_nil_r; [done|].
    subst q L k. nia.
Qed.

(** X17. The update flag after a fill. Through a view without the
    [Proxy] the flag of the attribute is what it was, whatever the value
    and however the call ends; [Emitter.fillAttribute] sets the flag
    whenever it completes. *)
Theorem fillAttribute_flag (fuel : nat) (e : Emitter) (inst : EmitterInstance)
    (name : string) (data : View) (g : THREE.BufferAttribute) :
  attributes inst !! name = Some data →
  geometry_attributes e !! name = Some g →
  (v_proxy data = false →
   ∀ value c, EmitterInstance_fillAttribute fuel e inst name value = Some c →
              THREE.needsUpdate <$> geometry_attributes (outcome c) !! name
              = Some (THREE.needsUpdate g)) ∧
  (∀ value e', Emitter_fillAttribute fuel e name value = Some (Normal e') →
               THREE.needsUpdate <$> geometry_attributes e' !! name = Some true).
Proof.
  intros Hdata Hg. split.
  - intros Hproxy value c. by apply EmitterInstance_fillAttribute_unproxied with data.
  - intros value e'. by apply Emitter_fillAttribute_flags with g.
Qed.

Lemma fill_generator_loop_empty_results (fuel : nat) (v : View)
    (value : Z → Generated) :
  (∀ i, as_array (value i) = []) →
  (0 < v_length v)%nat →
  ∀ s g, fill_generator_loop fuel v value s 0 g = None.
Proof.
  intros Hempty Hlen. induction fuel as [|fuel IH]; intros s g; simpl.
  - by rewrite bool_decide_true by lia.
  - rewrite bool_decide_true by lia. unfold data_set. rewrite Hempty.
    rewrite bool_decide_false by (simpl; lia). simpl. apply IH.
Qed.

(** X18. On a buffer or view that is not empty, filling with the empty
    vector does not end, and neither does filling through the emitter
    with a generator that returns empty arrays: the loop writes nothing
    and does not advance, so no amount of fuel gives a result. *)
Theorem fillAttribute_empty_vector (fuel : nat) (e : Emitter)
    (inst : EmitterInstance) (name : string) (data : View)
    (g : THREE.BufferAttribute) :
  geometry_attributes e !! name = Some g →
  (attributes inst !! name = Some data → (0 < v_length data)%nat →
   EmitterInstance_fillAttribute fuel e inst name (VArray []) = None) ∧
  ((0 < length (THREE.array g))%nat →
   Emitter_fillAttribute fuel e name (VArray []) = None ∧
   ∀ value, (∀ i, as_array (value i) = []) →
            Emitter_fillAttribute fuel e name (VFunction value) = None).
Proof.
  intros Hg. split.
  - intros Hdata Hlen. unfold EmitterInstance_fillAttribute. rewrite Hdata, Hg.
    by rewrite fill_array_loop_empty_vector.
  - intros Hlen. split.
    + unfold Emitter_fillAttribute. rewrite Hg.
      by rewrite fill_array_loop_empty_vector.
    + intros value Hempty. unfold Emitter_fillAttribute. rewrite Hg.
      by rewrite fill_generator_loop_empty_results.
Qed.

(** ** The further theorems at concrete inputs *)

Lemma scene_buffers_zero (name : string) (g : THREE.BufferAttribute) :
  geometry_attributes scene_emitter !! name = Some g →
  THREE.array g = replicate (length (THREE.array g)) 0.
Proof.
  unfold scene_emitter. simpl.
  by intros [[_ <-]|[_ [_ <-]%lookup_singleton_Some]]%lookup_insert_Some.
Qed.

Lemma scene_instance_ranges : ranges_in_bounds scene_registered scene_instance.
Proof.
  apply constructed_ranges_in_bounds; [reflexivity|].
  intros name g _ _. change (instanceCount scene_emitter) with 0. lia.
Qed.

Lemma scene_instance_member : 0%nat ∈ knownInstances scene_registered.
Proof. apply instanceAdded_member. Qed.

Lemma instanceRemoved_compacts_witness :
  ∃ e', instanceRemoved scene_registered 0%nat scene_instance = Normal e' ∧
        instanceCount e' = 0 ∧
        maxParticles e' = 10.
Proof.
  destruct (instanceRemoved_compacts scene_registered 0%nat scene_instance
              scene_instance_member scene_instance_ranges)
    as (e' & Hrm & Hc & _ & Hm & _).
  exists e'. split; [exact Hrm|]. split.
  - rewrite Hc. vm_compute. reflexivity.
  - rewrite Hm. reflexivity.
Defined.

Lemma instanceRemoved_keeps_data_witness :
  let u := {| v_begin := 12; v_length := 9; v_proxy := true |} in
  ∃ e', instanceRemoved scene_registered 0%nat scene_instance = Normal e' ∧
        read_view e' "pos" (moved_left u 12) = read_view scene_registered "pos" u.
Proof.
  intros u.
  destruct (instanceRemoved_compacts_aux scene_registered 0%nat scene_instance
              scene_instance_member scene_instance_ranges) as (e' & Hrm & _).
  exists e'. split; [exact Hrm|].
  refine (proj2 (instanceRemoved_keeps_data scene_registered e' 0%nat scene_instance
                   "pos" {| v_begin := 0; v_length := 12; v_proxy := true |} u
                   pos_attribute scene_instance_member scene_instance_ranges
                   _ _ _ _ Hrm) _).
  - vm_compute; reflexivity.
  - vm_compute; reflexivity.
  - simpl; lia.
  - simpl; lia.
  - vm_compute. lia.
Defined.

Lemma instanceRemoved_clears_buffer_witness :
  ∃ e', instanceRemoved scene_registered 0%nat scene_instance = Normal e' ∧
        geometry_attributes e' !! "tint"
        = Some (THREE.set_needsUpdate
                  (THREE.set_array tint_attribute (replicate 4 0)) true).
Proof.
  destruct (instanceRemoved_compacts_aux scene_registered 0%nat scene_instance
              scene_instance_member scene_instance_ranges) as (e' & Hrm & _).
  exists e'. split; [exact Hrm|].
  refine (instanceRemoved_clears_buffer scene_registered e' 0%nat scene_instance
            "tint" (whole_view tint_attribute) tint_attribute
            scene_instance_member scene_instance_ranges _ _ _ Hrm).
  - vm_compute; reflexivity.
  - vm_compute; reflexivity.
  - right. split; [vm_compute; reflexivity|reflexivity].
Defined.

Lemma new_then_dispose_round_trip_witness :
  ∃ w', EmitterInstance_dispose (snd (EmitterInstance_new scene 4))
          (fst (EmitterInstance_new scene 4)) = Normal w' ∧
        instanceCount (emitter w') = 0 ∧
        knownInstances (emitter w') = ∅.
Proof.
  destruct (new_then_dispose_round_trip scene 4) as (w' & Hd & Hc & Hk & _).
  - reflexivity.
  - apply empty_subseteq.
  - apply scene_buffers_zero.
  - exists w'. split; [exact Hd|]. split; [exact Hc|exact Hk].
Defined.

Lemma calculateAttributeSubarrays_again_witness :
  instanceCount scene_registered = 4 ∧
  calculateAttributeSubarrays scene_registered scene_instance = scene_instance.
Proof.
  split; [reflexivity|].
  exact (calculateAttributeSubarrays_again scene_emitter scene_registered
           (plain_instance 4) eq_refl eq_refl).
Defined.

Lemma instanceCount_bounds_witness :
  let obj := λ _ : ref, plain_instance 8 in
  let e := outcome (run obj (Emitter_new 10 ∅ false)
                      [Register 0%nat; Register 1%nat; Unregister 0%nat]) in
  0 ≤ instanceCount e
    ≤ Z.min (maxParticles e) (registered_total obj (knownInstances e)).
Proof.
  intros obj.
  apply (instanceCount_bounds obj).
  - intros r. simpl. lia.
  - simpl. lia.
  - simpl. rewrite registered_total_empty. lia.
Defined.

Lemma consecutive_instances_witness :
  let first := EmitterInstance_new scene 4 in
  let second := EmitterInstance_new (snd first) 3 in
  ∃ x y,
    heap (snd second) !! fst first = Some x ∧
    heap (snd second) !! fst second = Some y ∧
    start_of x "pos" = 0 ∧ start_of y "pos" = 12.
Proof.
  intros first second.
  destruct (consecutive_instances scene 4 3 "pos" pos_attribute)
    as (x & y & _ & Hx & Hy & _ & Hsx & Hsy & _).
  - vm_compute; reflexivity.
  - simpl; lia.
  - apply empty_subseteq.
  - simpl; lia.
  - lia.
  - simpl; lia.
  - exists x, y. split; [exact Hx|]. split; [exact Hy|].
    split; [exact Hsx|]. rewrite Hsy. reflexivity.
Defined.

Lemma scene_instance_pos :
  attributes scene_instance !! "pos"
  = Some {| v_begin := 0; v_length := 12; v_proxy := true |}.
Proof. vm_compute. reflexivity. Qed.

Lemma scene_instance_tint :
  attributes scene_instance !! "tint" = Some (whole_view tint_attribute).
Proof. vm_compute. reflexivity. Qed.

Lemma scene_registered_pos :
  geometry_attributes scene_registered !! "pos" = Some pos_attribute.
Proof. vm_compute. reflexivity. Qed.

Lemma scene_registered_tint :
  geometry_attributes scene_registered !! "tint" = Some tint_attribute.
Proof. vm_compute. reflexivity. Qed.

Lemma EmitterInstance_fillAttribute_stays_inside_witness :
  let data := {| v_begin := 0; v_length := 12; v_proxy := true |} in
  ∃ c g',
    EmitterInstance_fillAttribute 100 scene_registered scene_instance "pos"
      (VArray [1; 2; 3; 4; 5]) = Some c ∧
    outcome c = store_attribute scene_registered "pos" g' ∧
    same_outside data pos_attribute g'.
Proof.
  intros data.
  destruct (EmitterInstance_fillAttribute 100 scene_registered scene_instance "pos"
              (VArray [1; 2; 3; 4; 5])) as [c|] eqn:Hc;
    [|vm_compute in Hc; discriminate].
  destruct (EmitterInstance_fillAttribute_stays_inside 100 scene_registered
              scene_instance "pos" data pos_attribute (VArray [1; 2; 3; 4; 5]) c
              scene_instance_pos scene_registered_pos) as (g' & Hout & Hsame).
  - simpl; lia.
  - exact Hc.
  - exists c, g'. split; [reflexivity|]. split; [exact Hout|exact Hsame].
Defined.

Lemma fillAttribute_number_witness :
  let data := {| v_begin := 0; v_length := 12; v_proxy := true |} in
  ∃ e', EmitterInstance_fillAttribute 100 scene_registered scene_instance "pos"
          (VNumber 7) = Some (Normal e') ∧
        read_view e' "pos" data = replicate 12 7.
Proof.
  intros data.
  destruct (proj1 (fillAttribute_number 100 scene_registered scene_instance "pos"
                     data pos_attribute 7 scene_instance_pos scene_registered_pos
                     ltac:(simpl; lia)))
    as (e' & Hfill & Hread & _).
  exists e'. split; [exact Hfill|exact Hread].
Defined.

Lemma EmitterInstance_fillAttribute_generator_witness :
  let data := {| v_begin := 0; v_length := 12; v_proxy := true |} in
  ∃ e', EmitterInstance_fillAttribute 100 scene_registered scene_instance "pos"
          (VFunction (λ i, 2 * i)) = Some (Normal e') ∧
        read_view e' "pos" data = [0; 2; 4; 6; 8; 10; 12; 14; 16; 18; 20; 22].
Proof.
  intros data.
  destruct (EmitterInstance_fillAttribute_generator 100 scene_registered
              scene_instance "pos" data pos_attribute (λ i, 2 * i)
              scene_instance_pos scene_registered_pos
              ltac:(simpl; lia) ltac:(simpl; lia))
    as (e' & Hfill & Hread & _).
  exists e'. split; [exact Hfill|exact Hread].
Defined.

Lemma Emitter_fillAttribute_generator_witness :
  Emitter_fillAttribute 100 scene_registered "tint" (VFunction (λ i, GArray [i; i + 10]))
  = Some (Normal (store_attribute scene_registered "tint"
                    (THREE.set_needsUpdate
                       (THREE.set_array tint_attribute [0; 10; 1; 11]) true))).
Proof.
  exact (proj1 (Emitter_fillAttribute_generator 100 scene_registered "tint"
                  tint_attribute (λ i, GArray [i; i + 10]) 2
                  scene_registered_tint (λ _, eq_refl) ltac:(lia) ltac:(simpl; lia))).
Defined.


Lemma run_members_witness :
  let obj := λ _ : ref, plain_instance 8 in
  ∃ e', run obj (Emitter_new 10 ∅ false)
          [Register 0%nat; Register 1%nat; Unregister 0%nat] = Normal e' ∧
        knownInstances e' = ({[1%nat]} ∪ ({[0%nat]} ∪ ∅)) ∖ {[0%nat]}.
Proof.
  intros obj.
  destruct (run obj (Emitter_new 10 ∅ false)
              [Register 0%nat; Register 1%nat; Unregister 0%nat])
    as [e'|e'] eqn:Hrun; [|vm_compute in Hrun; discriminate].
  exists e'. split; [reflexivity|].
  exact (proj1 (run_members obj _ _ e' Hrun)).
Defined.

Lemma Emitter_fillAttribute_vector_tiling_witness :
  Emitter_fillAttribute 100 scene_registered "tint" (VArray [1; 2; 3])
  = Some (RangeError (store_attribute scene_registered "tint"
                        (THREE.set_array tint_attribute [1; 2; 3; 0]))).
Proof.
  exact (proj1 (Emitter_fillAttribute_vector_tiling 100 scene_registered "tint"
                  tint_attribute [1; 2; 3] scene_registered_tint
                  ltac:(done) ltac:(simpl; lia))).
Defined.

Lemma fillAttribute_flag_witness :
  ∃ c, EmitterInstance_fillAttribute 100 scene_registered scene_instance "tint"
         (VNumber 5) = Some c ∧
       THREE.needsUpdate <$> geometry_attributes (outcome c) !! "tint" = Some false.
Proof.
  destruct (EmitterInstance_fillAttribute 100 scene_registered scene_instance "tint"
              (VNumber 5)) as [c|] eqn:Hc; [|vm_compute in Hc; discriminate].
  exists c. split; [reflexivity|].
  exact (proj1 (fillAttribute_flag 100 scene_registered scene_instance "tint"
                  (whole_view tint_attribute) tint_attribute
                  scene_instance_tint scene_registered_tint)
           eq_refl (VNumber 5) c Hc).
Defined.

Lemma fillAttribute_empty_vector_witness :
  Emitter_fillAttribute 100 scene_registered "tint" (VArray []) = None ∧
  EmitterInstance_fillAttribute 100 scene_registered scene_instance "pos" (VArray [])
  = None.
Proof.
  destruct (fillAttribute_empty_vector 100 scene_registered scene_instance "tint"
              (whole_view tint_attribute) tint_attribute scene_registered_tint)
    as (_ & Hem).
  destruct (fillAttribute_empty_vector 100 scene_registered scene_instance "pos"
              {| v_begin := 0; v_length := 12; v_proxy := true |} pos_attribute
              scene_registered_pos) as (Hinst & _).
  split.
  - exact (proj1 (Hem ltac:(simpl; lia))).
  - exact (Hinst scene_instance_pos ltac:(simpl; lia)).
Defined.
